(** * SSHClient: session flags, native listeners and transfer counters

    A shallow embedding of [lib/sshclient.js] (the compiled form of the
    TypeScript class [SSHClient]).  One [World] holds the client object,
    the platform constant, the subscriptions that are live inside the
    React Native event emitters, and the ordered record of everything the
    client sends across its two boundaries: calls into the native module
    [RNSSHClient] and invocations of user callbacks.

    Every asynchronous method is split the way the source splits it: the
    part that runs when the method is called (up to and including the
    native call), and the body of the completion callback handed to the
    native module, which runs later with the native [error] / [response]. *)

From stdpp Require Import gmap strings list.
From Stdlib Require Import ZArith Ascii.

Set Default Proof Using "Type".

(** ** Values that cross the boundaries *)

(** [NATIVE_EVENT_SHELL] and friends, as in the source. *)
Definition NATIVE_EVENT_SHELL : string := "Shell".
Definition NATIVE_EVENT_DOWNLOAD_PROGRESS : string := "DownloadProgress".
Definition NATIVE_EVENT_UPLOAD_PROGRESS : string := "UploadProgress".

Inductive PtyType := VANILLA | VT100 | VT102 | VT220 | ANSI | XTERM.

(** A truthy error value.  The [error] argument of a native completion
    callback is an [option Error]: [None] stands for the falsy values
    ([null], [undefined]) that make [if (error)] take the success path. *)
Definition Error := string.

(** UTF-16 code units; a raw directory entry is a sequence of them. *)
Definition code_unit := N.
Definition jsstring := list code_unit.

(** One decoded directory entry ([LsResult] in the type declarations):
    what [JSON.parse] yields for a well-formed raw entry. *)
Record LsResult := mkLsResult {
  filename : jsstring;
  isDirectory : bool;
  modificationDate : jsstring;
  lastAccess : jsstring;
  fileSize : Z;
  ownerUserID : Z;
  ownerGroupID : Z;
  flags : Z
}.

(** What a user callback receives as [response]. *)
Inductive Response :=
| RUndefined
| RString (s : string)
| REntries (l : list LsResult).

(** A user function ([callback] arguments and [on] handlers) is opaque:
    it is identified by a number. *)
Definition CallbackFunction := nat.
Definition EventHandler := nat.

(** Calls into [RNSSHClient], with their arguments in source order
    (the completion callback is left out). *)
Inductive NativeCall :=
| N_execute (command key : string)
| N_startShell (key : string) (ptyType : PtyType)
| N_writeToShell (command key : string)
| N_closeShell (key : string)
| N_connectSFTP (key : string)
| N_sftpLs (path key : string)
| N_sftpRename (oldPath newPath key : string)
| N_sftpMkdir (path key : string)
| N_sftpRm (path key : string)
| N_sftpRmdir (path key : string)
| N_sftpChmod (path : string) (permissions : Z) (key : string)
| N_sftpUpload (localFilePath remoteFilePath key : string)
| N_sftpUploadWithCustomName (localFilePath remoteFilePath fileName key : string)
| N_sftpUploadBase64 (base64 remoteFilePath fileName key : string)
| N_sftpCancelUpload (key : string)
| N_sftpDownload (remoteFilePath localFilePath key : string)
| N_sftpCancelDownload (key : string)
| N_disconnectSFTP (key : string)
| N_disconnect (key : string).

Inductive Effect :=
| Native (c : NativeCall)
| UserCallback (cb : CallbackFunction) (error : option Error) (response : Response)
| HandlerCall (h : EventHandler) (v : string).

(** ** The client object and its surroundings *)

(** [Platform.OS === 'ios' ? RNSSHClientEmitter : DeviceEventEmitter] *)
Inductive Emitter := RNSSHClientEmitter | DeviceEventEmitter.

(** The handle returned by [addListener]. *)
Record Subscription := mkSub {
  sub_id : nat;
  sub_emitter : Emitter;
  sub_event : string
}.

Record Counters := mkCounters { download : Z; upload : Z }.
Record ActiveStream := mkActive { sftp : bool; shell : bool }.

(** The fields set by the constructor.  [_listeners] and [_handlers] are
    objects used as maps from event names; they hold the entries the
    client's methods write into them, which is all the methods read back
    for the event names the native module emits. *)
Record SSHClient := mkClient {
  _key : string;
  _listeners : gmap string Subscription;
  _counters : Counters;
  _activeStream : ActiveStream;
  _handlers : gmap string EventHandler;
  host : string;
  port : Z;
  username : string
}.

Record World := mkWorld {
  OS : string;                     (* Platform.OS *)
  client : SSHClient;              (* this *)
  emitter : list Subscription;     (* subscriptions alive in the emitters *)
  next_sub : nat;                  (* supply of fresh handles *)
  effects : list Effect            (* boundary crossings, oldest first *)
}.

#[global] Instance Emitter_eq_dec : EqDecision Emitter.
Proof. solve_decision. Defined.
#[global] Instance Subscription_eq_dec : EqDecision Subscription.
Proof. solve_decision. Defined.

(** Field updates. *)
Definition with_client (f : SSHClient → SSHClient) (w : World) : World :=
  mkWorld (OS w) (f (client w)) (emitter w) (next_sub w) (effects w).

Definition set_listeners (l : gmap string Subscription) (c : SSHClient) : SSHClient :=
  mkClient (_key c) l (_counters c) (_activeStream c) (_handlers c)
           (host c) (port c) (username c).

Definition set_counters (k : Counters) (c : SSHClient) : SSHClient :=
  mkClient (_key c) (_listeners c) k (_activeStream c) (_handlers c)
           (host c) (port c) (username c).

Definition set_activeStream (a : ActiveStream) (c : SSHClient) : SSHClient :=
  mkClient (_key c) (_listeners c) (_counters c) a (_handlers c)
           (host c) (port c) (username c).

Definition set_handlers (h : gmap string EventHandler) (c : SSHClient) : SSHClient :=
  mkClient (_key c) (_listeners c) (_counters c) (_activeStream c) h
           (host c) (port c) (username c).

Definition set_shell (b : bool) : World → World :=
  with_client (λ c, set_activeStream (mkActive (sftp (_activeStream c)) b) c).

Definition set_sftp (b : bool) : World → World :=
  with_client (λ c, set_activeStream (mkActive b (shell (_activeStream c))) c).

Definition set_upload (n : Z) : World → World :=
  with_client (λ c, set_counters (mkCounters (download (_counters c)) n) c).

Definition set_download (n : Z) : World → World :=
  with_client (λ c, set_counters (mkCounters n (upload (_counters c))) c).

(** Appending one boundary crossing. *)
Definition emit_effect (e : Effect) (w : World) : World :=
  mkWorld (OS w) (client w) (emitter w) (next_sub w) (effects w ++ [e]).

Definition native (c : NativeCall) : World → World := emit_effect (Native c).

(** [if (callback) { callback(error, response); }] *)
Definition call_callback (callback : option CallbackFunction)
    (error : option Error) (response : Response) (w : World) : World :=
  match callback with
  | Some cb => emit_effect (UserCallback cb error response) w
  | None => w
  end.

(** Shorthands for the fields the methods test. *)
Definition shellActive (w : World) : bool := shell (_activeStream (client w)).
Definition sftpActive (w : World) : bool := sftp (_activeStream (client w)).
Definition uploadCount (w : World) : Z := upload (_counters (client w)).
Definition downloadCount (w : World) : Z := download (_counters (client w)).
Definition this_key (w : World) : string := _key (client w).

(** The state a promise returned by a method is in when the method
    returns, and the way a completion callback leaves it. *)
Inductive Promise (A : Type) :=
| Resolved (a : A)
| Rejected (e : Error)
| Pending.
Arguments Resolved {A} a.
Arguments Rejected {A} e.
Arguments Pending {A}.

(** How the body of a native completion callback ends: it settles the
    promise one way or the other, or an exception leaves the callback
    before either [resolve] or [reject] is reached, and the promise stays
    pending. *)
Inductive Completion (A : Type) :=
| Resolve (a : A)
| Reject (e : Error)
| Uncaught (what : string).
Arguments Resolve {A} a.
Arguments Reject {A} e.
Arguments Uncaught {A} what.

(** The constructor's field initialisers (the [connect] call is not
    modelled: it touches none of them). *)
Definition new_SSHClient (key host : string) (port : Z) (username : string) : SSHClient :=
  mkClient key ∅ (mkCounters 0 0) (mkActive false false) ∅ host port username.

Definition new_World (os : string) (c : SSHClient) : World :=
  mkWorld os c [] 0 [].

(** ** Event emitters *)

Definition listenerInterface (w : World) : Emitter :=
  if String.eqb (OS w) "ios" then RNSSHClientEmitter else DeviceEventEmitter.

(** [emitter.addListener(eventName, listener)]: a fresh subscription is
    appended to the emitter's registry and returned. *)
Definition addListener (em : Emitter) (eventName : string) (w : World)
    : Subscription * World :=
  let s := mkSub (next_sub w) em eventName in
  (s, mkWorld (OS w) (client w) (emitter w ++ [s]) (S (next_sub w)) (effects w)).

(** [subscription.remove()] *)
Definition remove (s : Subscription) (w : World) : World :=
  mkWorld (OS w) (client w) (filter (λ x, x ≠ s) (emitter w))
          (next_sub w) (effects w).

(** Live subscriptions for one event name. *)
Definition active_subscriptions (eventName : string) (w : World) : list Subscription :=
  filter (λ s, sub_event s = eventName) (emitter w).

(** ** Listener bookkeeping *)

(** [on(eventName, handler)]: [this._handlers[eventName] = handler].
    Under the name ["__proto__"] the assignment replaces the table's
    prototype, which is what the entry under that name stands for (see
    [read_handler]).  While that entry is absent every other assignment
    makes an own property, as here; once the prototype is a function, an
    assignment under a name that function does not let be shadowed would
    throw instead, and the model does not follow the code there. *)
Definition on (eventName : string) (handler : EventHandler) : World → World :=
  with_client (λ c, set_handlers (<[eventName := handler]> (_handlers c)) c).

(** [registerNativeListener(eventName)] *)
Definition registerNativeListener (eventName : string) (w : World) : World :=
  let '(s, w) := addListener (listenerInterface w) eventName w in
  with_client (λ c, set_listeners (<[eventName := s]> (_listeners c)) c) w.

(** [unregisterNativeListener(eventName)] *)
Definition unregisterNativeListener (eventName : string) (w : World) : World :=
  match _listeners (client w) !! eventName with
  | Some listener =>
      let w := remove listener w in
      with_client (λ c, set_listeners (delete eventName (_listeners c)) c) w
  | None => w
  end.

(** ** Shell *)

(** [startShell(ptyType, callback)], up to the native call. *)
Definition startShell (ptyType : PtyType) (w : World) : Promise string * World :=
  if shellActive w then (Resolved "", w)
  else
    let w := registerNativeListener NATIVE_EVENT_SHELL w in
    let w := native (N_startShell (this_key w) ptyType) w in
    (Pending, w).

(** The completion callback of [RNSSHClient.startShell]. *)
Definition startShell_done (callback : option CallbackFunction)
    (error : option Error) (response : string) (w : World)
    : Completion string * World :=
  let w := call_callback callback error (RString response) w in
  match error with
  | Some e => (Reject e, w)
  | None =>
      let w := set_shell true w in
      (Resolve response, w)
  end.

(** [closeShell()] *)
Definition closeShell (w : World) : World :=
  let w := unregisterNativeListener NATIVE_EVENT_SHELL w in
  let w := native (N_closeShell (this_key w)) w in
  set_shell false w.

(** ** SFTP *)

(** [connectSFTP(callback)], up to the native call. *)
Definition connectSFTP (w : World) : Promise () * World :=
  if sftpActive w then (Resolved (), w)
  else (Pending, native (N_connectSFTP (this_key w)) w).

(** The completion callback of [RNSSHClient.connectSFTP]. *)
Definition connectSFTP_done (callback : option CallbackFunction)
    (error : option Error) (w : World) : Completion () * World :=
  let w := set_sftp true w in
  let w := registerNativeListener NATIVE_EVENT_DOWNLOAD_PROGRESS w in
  let w := registerNativeListener NATIVE_EVENT_UPLOAD_PROGRESS w in
  let w := call_callback callback error RUndefined w in
  match error with
  | Some e => (Reject e, w)
  | None => (Resolve (), w)
  end.

(** [checkSFTP(callback)]: the guard, and the [catch] handler that runs
    when the inner [connectSFTP()] promise is rejected. *)
Definition checkSFTP (w : World) : Promise () * World :=
  if sftpActive w then (Resolved (), w) else connectSFTP w.

Definition checkSFTP_catch (callback : option CallbackFunction)
    (error : Error) (w : World) : Completion () * World :=
  (Reject error, call_callback callback (Some error) RUndefined w).

(** [p.replace(/[\u0000-\u001F]/g, '')] *)
Definition is_control (c : code_unit) : bool := (c <=? 31)%N.

Definition strip_control (p : jsstring) : jsstring :=
  List.filter (λ c, negb (is_control c)) p.

Section Decoding.

(** [JSON.parse] is a library function: [None] stands for the
    [SyntaxError] it throws on text that is not JSON. *)
Variable JSON_parse : jsstring → option LsResult.

(** [_response.map((p) => JSON.parse(p.replace(...)))]: the first
    exception ends the whole [map]. *)
Definition decode_entries (_response : list jsstring) : option (list LsResult) :=
  mapM (λ p, JSON_parse (strip_control p)) _response.

(** The executor of [sftpLs], run once [checkSFTP] has resolved. *)
Definition sftpLs_start (path : string) (w : World) : World :=
  native (N_sftpLs path (this_key w)) w.

(** What follows the computation of [response] in the completion
    callback of [RNSSHClient.sftpLs]. *)
Definition sftpLs_settle (callback : option CallbackFunction)
    (error : option Error) (response : option (list LsResult)) (w : World)
    : Completion (option (list LsResult)) * World :=
  let w := call_callback callback error
             (match response with Some l => REntries l | None => RUndefined end) w in
  match error with
  | Some e => (Reject e, w)
  | None => (Resolve response, w)
  end.

(** The completion callback of [RNSSHClient.sftpLs].  A falsy
    [_response] is [None]. *)
Definition sftpLs_done (callback : option CallbackFunction)
    (error : option Error) (_response : option (list jsstring)) (w : World)
    : Completion (option (list LsResult)) * World :=
  match _response with
  | Some raw =>
      match decode_entries raw with
      | Some l => sftpLs_settle callback error (Some l) w
      | None => (Uncaught "SyntaxError", w)
      end
  | None => sftpLs_settle callback error None w
  end.

End Decoding.

(** ** Transfers

    The counters are JavaScript numbers holding integers; [++] and [--]
    are exact on them far beyond any number of transfers a client can
    have in flight, so they are integers here. *)

(** The completion callbacks of the three upload calls have one body. *)
Definition upload_done (callback : option CallbackFunction)
    (error : option Error) (w : World) : Completion () * World :=
  let w := set_upload (uploadCount w - 1) w in
  let w := call_callback callback error RUndefined w in
  match error with
  | Some e => (Reject e, w)
  | None => (Resolve (), w)
  end.

(** The executor of [sftpUpload], run once [checkSFTP] has resolved. *)
Definition sftpUpload_start (localFilePath remoteFilePath : string) (w : World) : World :=
  let w := set_upload (uploadCount w + 1) w in
  native (N_sftpUpload localFilePath remoteFilePath (this_key w)) w.

Definition sftpUpload_done := upload_done.

Definition sftpUploadWithCustomName_start
    (localFilePath remoteFilePath fileName : string) (w : World) : World :=
  let w := set_upload (uploadCount w + 1) w in
  native (N_sftpUploadWithCustomName localFilePath remoteFilePath fileName (this_key w)) w.

Definition sftpUploadWithCustomName_done := upload_done.

Definition sftpUploadBase64_start
    (base64 remoteFilePath fileName : string) (w : World) : World :=
  let w := set_upload (uploadCount w + 1) w in
  native (N_sftpUploadBase64 base64 remoteFilePath fileName (this_key w)) w.

Definition sftpUploadBase64_done := upload_done.

(** [sftpCancelUpload()] *)
Definition sftpCancelUpload (w : World) : World :=
  if (0 <? uploadCount w)%Z then native (N_sftpCancelUpload (this_key w)) w else w.

(** The executor of [sftpDownload] and its completion callback. *)
Definition sftpDownload_start (remoteFilePath localFilePath : string) (w : World) : World :=
  let w := set_download (downloadCount w + 1) w in
  native (N_sftpDownload remoteFilePath localFilePath (this_key w)) w.

Definition sftpDownload_done (callback : option CallbackFunction)
    (error : option Error) (response : string) (w : World)
    : Completion string * World :=
  let w := set_download (downloadCount w - 1) w in
  let w := call_callback callback error (RString response) w in
  match error with
  | Some e => (Reject e, w)
  | None => (Resolve response, w)
  end.

(** [sftpCancelDownload()] *)
Definition sftpCancelDownload (w : World) : World :=
  if (0 <? downloadCount w)%Z then native (N_sftpCancelDownload (this_key w)) w else w.

(** ** Teardown *)

(** [disconnectSFTP()] *)
Definition disconnectSFTP (w : World) : World :=
  if negb (String.eqb (OS w) "ios") then
    let w := unregisterNativeListener NATIVE_EVENT_DOWNLOAD_PROGRESS w in
    let w := unregisterNativeListener NATIVE_EVENT_UPLOAD_PROGRESS w in
    let w := native (N_disconnectSFTP (this_key w)) w in
    set_sftp false w
  else w.

(** [disconnect()] *)
Definition disconnect (w : World) : World :=
  let w := if shellActive w then closeShell w else w in
  let w := if sftpActive w then disconnectSFTP w else w in
  native (N_disconnect (this_key w)) w.

(** ** Incoming events *)

Record NativeEvent := mkEvent { name : string; key : string; value : string }.

(** What running a piece of user code leaves behind: it returns, or it
    throws. *)
Inductive Outcome :=
| Returns (w : World)
| Raises (what : string) (w : World).

(** What reading a property of the handler table yields.  The table is
    a plain object: a name that [on] has not set is read through the
    object's prototype. *)
Inductive Lookup :=
| Falsy                                   (* undefined, or another falsy value *)
| ReadThrows                              (* the read itself throws *)
| NotCallable                             (* a truthy value that is not a function *)
| Callable (f : string → World → Outcome).

(** The functions every object inherits from [Object.prototype]. *)
Definition Object_prototype_functions : list string :=
  ["constructor"; "hasOwnProperty"; "isPrototypeOf"; "propertyIsEnumerable";
   "toLocaleString"; "toString"; "valueOf"; "__defineGetter__";
   "__defineSetter__"; "__lookupGetter__"; "__lookupSetter__"].

Section Handlers.

(** What calling a user handler does.  Handlers are arbitrary user
    functions: they may change the world and they may throw. *)
Variable invoke : EventHandler → string → World → Outcome.

(** What calling the function inherited from [Object.prototype] under a
    name does, with the handler table as [this]. *)
Variable builtin : string → string → World → Outcome.

(** What a property read through a function yields, that function
    being the table's prototype. *)
Variable through_function : EventHandler → string → Lookup.

(** [this._handlers[eventName]].  The entries of [_handlers] are the
    table's own properties, except the one under ["__proto__"]: assigning
    to that name replaces the table's prototype, and reading it yields the
    prototype.  The prototype is [Object.prototype] until then, where
    ["__proto__"] reads as that object itself. *)
Definition read_handler (eventName : string) (w : World) : Lookup :=
  match _handlers (client w) !! eventName with
  | Some h => Callable (invoke h)
  | None =>
      match _handlers (client w) !! "__proto__" with
      | Some p => through_function p eventName
      | None =>
          if decide (eventName = "__proto__") then NotCallable
          else if decide (eventName ∈ Object_prototype_functions)
               then Callable (builtin eventName)
               else Falsy
      end
  end.

(** [handleEvent(event)] *)
Definition handleEvent (event : NativeEvent) (w : World) : Outcome :=
  match read_handler (name event) w with
  | Falsy => Returns w
  | ReadThrows => Raises "TypeError" w
  | NotCallable =>
      if String.eqb (this_key w) (key event)
      then Raises "TypeError" w
      else Returns w
  | Callable f =>
      if String.eqb (this_key w) (key event)
      then f (value event) w
      else Returns w
  end.

(** The emitter delivering one event to the listeners it was given,
    in the order they were added; an exception from one listener ends
    the delivery. *)
Fixpoint deliver (listeners : list Subscription) (event : NativeEvent)
    (w : World) : Outcome :=
  match listeners with
  | [] => Returns w
  | _ :: rest =>
      match handleEvent event w with
      | Returns w' => deliver rest event w'
      | Raises x w' => Raises x w'
      end
  end.

(** [emit(eventName, event)].  React Native keeps one registry of
    listeners per event name: a listener added through
    [NativeEventEmitter] is added to the registry [DeviceEventEmitter]
    emits from. *)
Definition emit (eventName : string) (event : NativeEvent) (w : World) : Outcome :=
  deliver (active_subscriptions eventName w) event w.

End Handlers.

(** A handler that only leaves a record of its call. *)
Definition recording_handler (h : EventHandler) (v : string) (w : World) : Outcome :=
  Returns (emit_effect (HandlerCall h v) w).

(** Stand-ins for the two things the engine decides, for events whose
    names never reach them: inherited functions that return at once, and
    functions without properties of their own. *)
Definition quiet_builtin (n v : string) (w : World) : Outcome := Returns w.
Definition no_function_properties (h : EventHandler) (n : string) : Lookup := Falsy.

(** ** Transfers in flight

    The native module holds one completion callback per transfer it was
    asked to perform, and calls each of them once.  [in_flight] counts the
    callbacks it still holds. *)

Record Transfers := mkTransfers {
  world : World;
  uploads_in_flight : nat;
  downloads_in_flight : nat
}.

(** Methods that are not transfers take part in the interleaving too;
    all that matters of them here is that they leave the counters alone. *)
Definition keeps_counters (f : World → World) : Prop :=
  ∀ w, _counters (client (f w)) = _counters (client w).

Inductive transfer_step : Transfers → Transfers → Prop :=
| step_upload l r w u d :
    transfer_step (mkTransfers w u d)
                  (mkTransfers (sftpUpload_start l r w) (S u) d)
| step_upload_named l r f w u d :
    transfer_step (mkTransfers w u d)
                  (mkTransfers (sftpUploadWithCustomName_start l r f w) (S u) d)
| step_upload_base64 b r f w u d :
    transfer_step (mkTransfers w u d)
                  (mkTransfers (sftpUploadBase64_start b r f w) (S u) d)
| step_upload_done cb err w u d :
    transfer_step (mkTransfers w (S u) d)
                  (mkTransfers (upload_done cb err w).2 u d)
| step_download r l w u d :
    transfer_step (mkTransfers w u d)
                  (mkTransfers (sftpDownload_start r l w) u (S d))
| step_download_done cb err resp w u d :
    transfer_step (mkTransfers w u (S d))
                  (mkTransfers (sftpDownload_done cb err resp w).2 u d)
| step_cancel_upload w u d :
    transfer_step (mkTransfers w u d) (mkTransfers (sftpCancelUpload w) u d)
| step_cancel_download w u d :
    transfer_step (mkTransfers w u d) (mkTransfers (sftpCancelDownload w) u d)
| step_other f w u d :
    keeps_counters f →
    transfer_step (mkTransfers w u d) (mkTransfers (f w) u d).

(** A client as its constructor leaves it, in a world where nothing has
    happened yet. *)
Definition fresh_world (os key host : string) (port : Z) (username : string) : World :=
  new_World os (new_SSHClient key host port username).

(** Every state that follows [w0], with nothing in flight there, by any
    interleaving of transfer requests, completions, cancellations and
    other methods. *)
Definition reachable (w0 : World) (t : Transfers) : Prop :=
  rtc transfer_step (mkTransfers w0 0 0) t.

(** What a method added to the record of boundary crossings. *)
Definition new_effects (w w' : World) : list Effect :=
  drop (length (effects w)) (effects w').

(** The invariant: each counter is the number of completion callbacks
    of its direction that the native module still holds. *)
Definition counts_in_flight (t : Transfers) : Prop :=
  uploadCount (world t) = Z.of_nat (uploads_in_flight t) ∧
  downloadCount (world t) = Z.of_nat (downloads_in_flight t).

(** What [disconnect] sends before the transport-level disconnect. *)
Definition channel_teardown (w : World) : list Effect :=
  (if shellActive w then [Native (N_closeShell (this_key w))] else [])
  ++ (if sftpActive w && negb (String.eqb (OS w) "ios")
      then [Native (N_disconnectSFTP (this_key w))] else []).

(** ** Client keys

    [Math.floor((1 + Math.random()) * 0x10000).toString(16).substring(1)].
    The random draw enters as the integer that [Math.floor] returns. *)

Definition hex_digit (d : N) : ascii :=
  match d with
  | 0 => "0" | 1 => "1" | 2 => "2" | 3 => "3" | 4 => "4"
  | 5 => "5" | 6 => "6" | 7 => "7" | 8 => "8" | 9 => "9"
  | 10 => "a" | 11 => "b" | 12 => "c" | 13 => "d" | 14 => "e"
  | _ => "f"
  end%N%char.

(** [n.toString(16)] for a non-negative integer: the digits are produced
    from the least significant one, in front of those already there. *)
Fixpoint toString16_digits (fuel : nat) (n : N) (acc : string) : string :=
  match fuel with
  | O => acc
  | S fuel =>
      let acc := String (hex_digit (n mod 16)) acc in
      if (n / 16 =? 0)%N then acc else toString16_digits fuel (n / 16) acc
  end.

Definition toString16 (n : N) : string :=
  toString16_digits (S (N.size_nat n)) n "".

(** [s.substring(1)] *)
Definition substring_1 (s : string) : string :=
  match s with
  | EmptyString => EmptyString
  | String _ rest => rest
  end.

(** [getRandomClientKey()], given the floored draw. *)
Definition getRandomClientKey (floored : N) : string :=
  substring_1 (toString16 floored).

Definition is_hex_char (c : ascii) : bool :=
  bool_decide (c ∈ String.list_ascii_of_string "0123456789abcdef").

(** ** Connecting *)

Record KeyPair := mkKeyPair {
  privateKey : string;
  publicKey : option string;
  passphrase : option string
}.

(** [PasswordOrKey = string | KeyPair] *)
Inductive PasswordOrKey :=
| Password (password : string)
| Key (keyPair : KeyPair).

(** The three native entry points [connect] chooses from, with their
    arguments in source order (the completion callback is left out). *)
Inductive ConnectCall :=
| N_connectToHostByPassword (host : string) (port : Z) (username password key : string)
| N_connectToHostByKey (host : string) (port : Z) (username : string)
                       (keyPair : KeyPair) (key : string)
| N_connectToHost (host : string) (port : Z) (username : string)
                  (passwordOrKey : PasswordOrKey) (key : string).

(** [connect(passwordOrKey, callback)]: the native call it makes. *)
Definition connect (os : string) (c : SSHClient) (passwordOrKey : PasswordOrKey)
    : ConnectCall :=
  if String.eqb os "android" then
    match passwordOrKey with
    | Password p => N_connectToHostByPassword (host c) (port c) (username c) p (_key c)
    | Key k => N_connectToHostByKey (host c) (port c) (username c) k (_key c)
    end
  else N_connectToHost (host c) (port c) (username c) passwordOrKey (_key c).

(** [new SSHClient(host, port, username, passwordOrKey, callback)]: the
    world holding the new client, and the native call made by the
    [connect] at the end of the constructor. *)
Definition constructor (os : string) (floored : N) (host : string) (port : Z)
    (username : string) (passwordOrKey : PasswordOrKey) : World * ConnectCall :=
  let c := new_SSHClient (getRandomClientKey floored) host port username in
  (new_World os c, connect os c passwordOrKey).

(** [SSHClient.connectWithKey] and [SSHClient.connectWithPassword], up
    to the native call. *)
Definition connectWithKey (os : string) (floored : N) (host : string) (port : Z)
    (username privateKey : string) (passphrase : option string)
    : World * ConnectCall :=
  constructor os floored host port username (Key (mkKeyPair privateKey None passphrase)).

Definition connectWithPassword (os : string) (floored : N) (host : string) (port : Z)
    (username password : string) : World * ConnectCall :=
  constructor os floored host port username (Password password).

(** The completion callback both factories hand to the constructor. *)
Definition connectWith_done (callback : option CallbackFunction)
    (error : option Error) (w : World) : Completion SSHClient * World :=
  let w := call_callback callback error RUndefined w in
  match error with
  | Some e => (Reject e, w)
  | None => (Resolve (client w), w)
  end.

(** ** Writing to the shell *)

(** [checkShell(callback)]: the guard, the [then] handler applied to the
    banner of a successful start, and the [catch] handler. *)
Definition checkShell (w : World) : Promise string * World :=
  if shellActive w then (Resolved "", w) else startShell VANILLA w.

Definition checkShell_then (res : string) : string :=
  match res with
  | EmptyString => ""
  | _ => res +:+ String "010" ""
  end.

Definition checkShell_catch (callback : option CallbackFunction)
    (error : Error) (w : World) : Completion string * World :=
  (Reject error, call_callback callback (Some error) RUndefined w).

(** The executor of [writeToShell], run once [checkShell] has resolved,
    and the completion callback of [RNSSHClient.writeToShell]. *)
Definition writeToShell_start (command : string) (w : World) : World :=
  native (N_writeToShell command (this_key w)) w.

Definition writeToShell_done (callback : option CallbackFunction)
    (error : option Error) (response : string) (w : World)
    : Completion string * World :=
  let w := call_callback callback error (RString response) w in
  match error with
  | Some e => (Reject e, w)
  | None => (Resolve response, w)
  end.

(** ** Commands and file operations *)

(** The executor of [execute] and the completion callback of
    [RNSSHClient.execute]. *)
Definition execute_start (command : string) (w : World) : World :=
  native (N_execute command (this_key w)) w.

Definition execute_done (callback : option CallbackFunction)
    (error : option Error) (response : string) (w : World)
    : Completion string * World :=
  let w := call_callback callback error (RString response) w in
  match error with
  | Some e => (Reject e, w)
  | None => (Resolve response, w)
  end.

(** The executors of [sftpRename], [sftpMkdir], [sftpRm], [sftpRmdir]
    and [sftpChmod], run once [checkSFTP] has resolved. *)
Definition sftpRename_start (oldPath newPath : string) (w : World) : World :=
  native (N_sftpRename oldPath newPath (this_key w)) w.

Definition sftpMkdir_start (path : string) (w : World) : World :=
  native (N_sftpMkdir path (this_key w)) w.

Definition sftpRm_start (path : string) (w : World) : World :=
  native (N_sftpRm path (this_key w)) w.

Definition sftpRmdir_start (path : string) (w : World) : World :=
  native (N_sftpRmdir path (this_key w)) w.

Definition sftpChmod_start (path : string) (permissions : Z) (w : World) : World :=
  native (N_sftpChmod path permissions (this_key w)) w.

(** The completion callbacks of these five calls have one body. *)
Definition file_operation_done (callback : option CallbackFunction)
    (error : option Error) (w : World) : Completion () * World :=
  let w := call_callback callback error RUndefined w in
  match error with
  | Some e => (Reject e, w)
  | None => (Resolve (), w)
  end.

Definition sftpRename_done := file_operation_done.
Definition sftpMkdir_done := file_operation_done.
Definition sftpRm_done := file_operation_done.
Definition sftpRmdir_done := file_operation_done.
Definition sftpChmod_done := file_operation_done.

(** ** One operation from call to settlement

    The pieces above, chained the way the promise chains of the source
    chain them, for an operation that runs with nothing else touching the
    client in between.  The native module's answers are inputs. *)

(** [writeToShell(command, callback)] *)
Definition writeToShell (command : string) (callback : option CallbackFunction)
    (shell_answer write_answer : option Error * string) (w : World)
    : Completion string * World :=
  let write w :=
    writeToShell_done callback write_answer.1 write_answer.2
                      (writeToShell_start command w) in
  match checkShell w with
  | (Resolved _, w) => write w
  | (Rejected e, w) => checkShell_catch callback e w
  | (Pending, w) =>
      match startShell_done None shell_answer.1 shell_answer.2 w with
      | (Resolve res, w) => let _ := checkShell_then res in write w
      | (Reject e, w) => checkShell_catch callback e w
      | (Uncaught x, w) => (Uncaught x, w)
      end
  end.

(** [this.checkSFTP(callback).then(() => new Promise(executor))], the
    opening of every SFTP method; [body] is the executor followed by its
    completion callback. *)
Definition after_checkSFTP {A} (callback : option CallbackFunction)
    (connect_answer : option Error) (body : World → Completion A * World)
    (w : World) : Completion A * World :=
  match checkSFTP w with
  | (Resolved _, w) => body w
  | (Rejected e, w) => (Reject e, (checkSFTP_catch callback e w).2)
  | (Pending, w) =>
      match connectSFTP_done None connect_answer w with
      | (Resolve _, w) => body w
      | (Reject e, w) => (Reject e, (checkSFTP_catch callback e w).2)
      | (Uncaught x, w) => (Uncaught x, w)
      end
  end.

(** [sftpUpload(localFilePath, remoteFilePath, callback)] *)
Definition sftpUpload (localFilePath remoteFilePath : string)
    (callback : option CallbackFunction)
    (connect_answer upload_answer : option Error) : World → Completion () * World :=
  after_checkSFTP callback connect_answer
    (λ w, sftpUpload_done callback upload_answer
            (sftpUpload_start localFilePath remoteFilePath w)).

(** [sftpUploadWithCustomName(localFilePath, remoteFilePath, fileName, callback)] *)
Definition sftpUploadWithCustomName (localFilePath remoteFilePath fileName : string)
    (callback : option CallbackFunction)
    (connect_answer upload_answer : option Error) : World → Completion () * World :=
  after_checkSFTP callback connect_answer
    (λ w, sftpUploadWithCustomName_done callback upload_answer
            (sftpUploadWithCustomName_start localFilePath remoteFilePath fileName w)).

(** [sftpUploadBase64(base64, remoteFilePath, fileName, callback)] *)
Definition sftpUploadBase64 (base64 remoteFilePath fileName : string)
    (callback : option CallbackFunction)
    (connect_answer upload_answer : option Error) : World → Completion () * World :=
  after_checkSFTP callback connect_answer
    (λ w, sftpUploadBase64_done callback upload_answer
            (sftpUploadBase64_start base64 remoteFilePath fileName w)).

(** [sftpDownload(remoteFilePath, localFilePath, callback)] *)
Definition sftpDownload (remoteFilePath localFilePath : string)
    (callback : option CallbackFunction)
    (connect_answer : option Error) (download_answer : option Error * string)
    : World → Completion string * World :=
  after_checkSFTP callback connect_answer
    (λ w, sftpDownload_done callback download_answer.1 download_answer.2
            (sftpDownload_start remoteFilePath localFilePath w)).

(** [sftpLs(path, callback)] *)
Definition sftpLs (JSON_parse : jsstring → option LsResult)
    (path : string) (callback : option CallbackFunction)
    (connect_answer : option Error)
    (ls_answer : option Error * option (list jsstring))
    : World → Completion (option (list LsResult)) * World :=
  after_checkSFTP callback connect_answer
    (λ w, sftpLs_done JSON_parse callback ls_answer.1 ls_answer.2
            (sftpLs_start path w)).

(** [execute(command, callback)] *)
Definition execute (command : string) (callback : option CallbackFunction)
    (answer : option Error * string) (w : World) : Completion string * World :=
  execute_done callback answer.1 answer.2 (execute_start command w).

(** [sftpRename(oldPath, newPath, callback)] *)
Definition sftpRename (oldPath newPath : string) (callback : option CallbackFunction)
    (connect_answer answer : option Error) : World → Completion () * World :=
  after_checkSFTP callback connect_answer
    (λ w, sftpRename_done callback answer (sftpRename_start oldPath newPath w)).

(** [sftpMkdir(path, callback)] *)
Definition sftpMkdir (path : string) (callback : option CallbackFunction)
    (connect_answer answer : option Error) : World → Completion () * World :=
  after_checkSFTP callback connect_answer
    (λ w, sftpMkdir_done callback answer (sftpMkdir_start path w)).

(** [sftpRm(path, callback)] *)
Definition sftpRm (path : string) (callback : option CallbackFunction)
    (connect_answer answer : option Error) : World → Completion () * World :=
  after_checkSFTP callback connect_answer
    (λ w, sftpRm_done callback answer (sftpRm_start path w)).

(** [sftpRmdir(path, callback)] *)
Definition sftpRmdir (path : string) (callback : option CallbackFunction)
    (connect_answer answer : option Error) : World → Completion () * World :=
  after_checkSFTP callback connect_answer
    (λ w, sftpRmdir_done callback answer (sftpRmdir_start path w)).

(** [sftpChmod(path, permissions, callback)] *)
Definition sftpChmod (path : string) (permissions : Z)
    (callback : option CallbackFunction)
    (connect_answer answer : option Error) : World → Completion () * World :=
  after_checkSFTP callback connect_answer
    (λ w, sftpChmod_done callback answer (sftpChmod_start path permissions w)).

(** ** Every piece of client code, as one alphabet

    JavaScript runs one piece of client code at a time: a method call up
    to its native call, or a completion callback.  A run of the client is
    a sequence of such pieces, in any order the callers and the native
    module produce. *)

Section Pieces.

Variable JSON_parse : jsstring → option LsResult.

Inductive Op :=
| Op_on (eventName : string) (handler : EventHandler)
| Op_execute_start (command : string)
| Op_execute_done (callback : option CallbackFunction)
                  (error : option Error) (response : string)
| Op_startShell (ptyType : PtyType)
| Op_startShell_done (callback : option CallbackFunction)
                     (error : option Error) (response : string)
| Op_checkShell
| Op_checkShell_catch (callback : option CallbackFunction) (error : Error)
| Op_writeToShell_start (command : string)
| Op_writeToShell_done (callback : option CallbackFunction)
                       (error : option Error) (response : string)
| Op_closeShell
| Op_connectSFTP
| Op_connectSFTP_done (callback : option CallbackFunction) (error : option Error)
| Op_checkSFTP
| Op_checkSFTP_catch (callback : option CallbackFunction) (error : Error)
| Op_sftpLs_start (path : string)
| Op_sftpLs_done (callback : option CallbackFunction) (error : option Error)
                 (_response : option (list jsstring))
| Op_sftpRename_start (oldPath newPath : string)
| Op_sftpMkdir_start (path : string)
| Op_sftpRm_start (path : string)
| Op_sftpRmdir_start (path : string)
| Op_sftpChmod_start (path : string) (permissions : Z)
| Op_file_operation_done (callback : option CallbackFunction) (error : option Error)
| Op_sftpUpload_start (localFilePath remoteFilePath : string)
| Op_sftpUploadWithCustomName_start (localFilePath remoteFilePath fileName : string)
| Op_sftpUploadBase64_start (base64 remoteFilePath fileName : string)
| Op_upload_done (callback : option CallbackFunction) (error : option Error)
| Op_sftpCancelUpload
| Op_sftpDownload_start (remoteFilePath localFilePath : string)
| Op_sftpDownload_done (callback : option CallbackFunction)
                       (error : option Error) (response : string)
| Op_sftpCancelDownload
| Op_disconnectSFTP
| Op_disconnect.

Definition run_op (op : Op) (w : World) : World :=
  match op with
  | Op_on n h => on n h w
  | Op_execute_start c => execute_start c w
  | Op_execute_done cb e r => (execute_done cb e r w).2
  | Op_startShell p => (startShell p w).2
  | Op_startShell_done cb e r => (startShell_done cb e r w).2
  | Op_checkShell => (checkShell w).2
  | Op_checkShell_catch cb e => (checkShell_catch cb e w).2
  | Op_writeToShell_start c => writeToShell_start c w
  | Op_writeToShell_done cb e r => (writeToShell_done cb e r w).2
  | Op_closeShell => closeShell w
  | Op_connectSFTP => (connectSFTP w).2
  | Op_connectSFTP_done cb e => (connectSFTP_done cb e w).2
  | Op_checkSFTP => (checkSFTP w).2
  | Op_checkSFTP_catch cb e => (checkSFTP_catch cb e w).2
  | Op_sftpLs_start p => sftpLs_start p w
  | Op_sftpLs_done cb e r => (sftpLs_done JSON_parse cb e r w).2
  | Op_sftpRename_start o n => sftpRename_start o n w
  | Op_sftpMkdir_start p => sftpMkdir_start p w
  | Op_sftpRm_start p => sftpRm_start p w
  | Op_sftpRmdir_start p => sftpRmdir_start p w
  | Op_sftpChmod_start p m => sftpChmod_start p m w
  | Op_file_operation_done cb e => (file_operation_done cb e w).2
  | Op_sftpUpload_start l r => sftpUpload_start l r w
  | Op_sftpUploadWithCustomName_start l r f => sftpUploadWithCustomName_start l r f w
  | Op_sftpUploadBase64_start b r f => sftpUploadBase64_start b r f w
  | Op_upload_done cb e => (upload_done cb e w).2
  | Op_sftpCancelUpload => sftpCancelUpload w
  | Op_sftpDownload_start r l => sftpDownload_start r l w
  | Op_sftpDownload_done cb e r => (sftpDownload_done cb e r w).2
  | Op_sftpCancelDownload => sftpCancelDownload w
  | Op_disconnectSFTP => disconnectSFTP w
  | Op_disconnect => disconnect w
  end.

Definition run_ops (ops : list Op) (w : World) : World :=
  foldl (λ w op, run_op op w) w ops.

End Pieces.

(** What the listener table and the emitter owe each other. *)
Record well_formed (w : World) : Prop := mkWellFormed {
  wf_fresh : ∀ s, s ∈ emitter w → sub_id s < next_sub w;
  wf_distinct : NoDup (emitter w);
  wf_platform : ∀ s, s ∈ emitter w → sub_emitter s = listenerInterface w;
  wf_named : ∀ n s, _listeners (client w) !! n = Some s → sub_event s = n;
  wf_live : ∀ n s, _listeners (client w) !! n = Some s → s ∈ emitter w
}.

(** The client key a native request carries. *)
Definition call_key (c : NativeCall) : string :=
  match c with
  | N_execute _ k
  | N_startShell k _ | N_writeToShell _ k | N_closeShell k | N_connectSFTP k
  | N_sftpLs _ k | N_sftpRename _ _ k | N_sftpMkdir _ k | N_sftpRm _ k
  | N_sftpRmdir _ k | N_sftpChmod _ _ k | N_sftpUpload _ _ k | N_sftpUploadWithCustomName _ _ _ k
  | N_sftpUploadBase64 _ _ _ k | N_sftpCancelUpload k | N_sftpDownload _ _ k
  | N_sftpCancelDownload k | N_disconnectSFTP k | N_disconnect k => k
  end.

Definition connect_key (c : ConnectCall) : string :=
  match c with
  | N_connectToHostByPassword _ _ _ _ k | N_connectToHostByKey _ _ _ _ k
  | N_connectToHost _ _ _ _ k => k
  end.

(** The client is still who it was in [w0], and has only ever spoken to
    the native module under its own key. *)
Record same_identity (w0 w : World) : Prop := mkSameIdentity {
  id_OS : OS w = OS w0;
  id_key : this_key w = this_key w0;
  id_host : host (client w) = host (client w0);
  id_port : port (client w) = port (client w0);
  id_username : username (client w) = username (client w0);
  id_requests : ∀ c, Native c ∈ effects w → call_key c = this_key w0
}.

(** The requests to the native module among some effects, in order. *)
Definition native_calls (l : list Effect) : list NativeCall :=
  omap (λ e, match e with Native c => Some c | _ => None end) l.

(** The world an implicit connect leaves, whatever its answer. *)
Definition implicitly_connected (connect_answer : option Error) (w : World) : World :=
  (connectSFTP_done None connect_answer (connectSFTP w).2).2.

(** How a promise ended, without the value it carries. *)
Inductive Settlement :=
| Fulfilled
| RejectedWith (e : Error)
| Unsettled.

Definition settlement {A} (c : Completion A) : Settlement :=
  match c with
  | Resolve _ => Fulfilled
  | Reject e => RejectedWith e
  | Uncaught _ => Unsettled
  end.

(** The ten SFTP methods, each with its arguments and the answer the
    native module gives to its request. *)
Inductive SftpMethod :=
| M_sftpLs (path : string) (answer : option Error * option (list jsstring))
| M_sftpRename (oldPath newPath : string) (answer : option Error)
| M_sftpMkdir (path : string) (answer : option Error)
| M_sftpRm (path : string) (answer : option Error)
| M_sftpRmdir (path : string) (answer : option Error)
| M_sftpChmod (path : string) (permissions : Z) (answer : option Error)
| M_sftpUpload (localFilePath remoteFilePath : string) (answer : option Error)
| M_sftpUploadWithCustomName (localFilePath remoteFilePath fileName : string)
                             (answer : option Error)
| M_sftpUploadBase64 (base64 remoteFilePath fileName : string) (answer : option Error)
| M_sftpDownload (remoteFilePath localFilePath : string) (answer : option Error * string).

(** The request a method makes of the native module. *)
Definition request_of (m : SftpMethod) (key : string) : NativeCall :=
  match m with
  | M_sftpLs p _ => N_sftpLs p key
  | M_sftpRename o n _ => N_sftpRename o n key
  | M_sftpMkdir p _ => N_sftpMkdir p key
  | M_sftpRm p _ => N_sftpRm p key
  | M_sftpRmdir p _ => N_sftpRmdir p key
  | M_sftpChmod p perm _ => N_sftpChmod p perm key
  | M_sftpUpload l r _ => N_sftpUpload l r key
  | M_sftpUploadWithCustomName l r f _ => N_sftpUploadWithCustomName l r f key
  | M_sftpUploadBase64 b r f _ => N_sftpUploadBase64 b r f key
  | M_sftpDownload r l _ => N_sftpDownload r l key
  end.

(** Calling a method, from the call to the settlement of its promise. *)
Definition call_sftp (JSON_parse : jsstring → option LsResult) (m : SftpMethod)
    (callback : option CallbackFunction) (connect_answer : option Error)
    (w : World) : Settlement * World :=
  match m with
  | M_sftpLs p a =>
      let r := sftpLs JSON_parse p callback connect_answer a w in (settlement r.1, r.2)
  | M_sftpRename o n a =>
      let r := sftpRename o n callback connect_answer a w in (settlement r.1, r.2)
  | M_sftpMkdir p a =>
      let r := sftpMkdir p callback connect_answer a w in (settlement r.1, r.2)
  | M_sftpRm p a =>
      let r := sftpRm p callback connect_answer a w in (settlement r.1, r.2)
  | M_sftpRmdir p a =>
      let r := sftpRmdir p callback connect_answer a w in (settlement r.1, r.2)
  | M_sftpChmod p perm a =>
      let r := sftpChmod p perm callback connect_answer a w in (settlement r.1, r.2)
  | M_sftpUpload l rp a =>
      let r := sftpUpload l rp callback connect_answer a w in (settlement r.1, r.2)
  | M_sftpUploadWithCustomName l rp f a =>
      let r := sftpUploadWithCustomName l rp f callback connect_answer a w in
      (settlement r.1, r.2)
  | M_sftpUploadBase64 b rp f a =>
      let r := sftpUploadBase64 b rp f callback connect_answer a w in
      (settlement r.1, r.2)
  | M_sftpDownload rp l a =>
      let r := sftpDownload rp l callback connect_answer a w in (settlement r.1, r.2)
  end.

(** The two subscriptions the completion callback of the SFTP connect
    makes, in the order it makes them. *)
Definition progress_subscriptions (w : World) : list Subscription :=
  [mkSub (next_sub w) (listenerInterface w) NATIVE_EVENT_DOWNLOAD_PROGRESS;
   mkSub (S (next_sub w)) (listenerInterface w) NATIVE_EVENT_UPLOAD_PROGRESS].

(** ** Scenarios

    Concrete clients and inputs on which the properties below are run. *)

(** A client whose shell is open. *)
Definition shell_open_world : World :=
  set_shell true (fresh_world "android" "1a2b" "example.org" 22 "root").

(** Two shell starts with a failure in between, on a fresh client. *)
Definition shell_started_twice : World :=
  let w := fresh_world "android" "1a2b" "example.org" 22 "root" in
  let w := (startShell VANILLA w).2 in
  let w := (startShell_done None (Some "no pty") "" w).2 in
  (startShell VANILLA w).2.

(** Two uploads and a download, completed out of order, one upload
    failing. *)
Definition three_transfers : Transfers :=
  let w := fresh_world "android" "1a2b" "example.org" 22 "root" in
  let w := sftpUpload_start "a.txt" "/tmp" w in
  let w := sftpDownload_start "/etc/motd" "/sdcard" w in
  let w := sftpUploadBase64_start "aGk=" "/tmp" "b.txt" w in
  let w := (upload_done None (Some "quota") w).2 in
  let w := (sftpDownload_done (Some 3) None "/sdcard/motd" w).2 in
  let w := (upload_done None None w).2 in
  mkTransfers w 0 0.

(** A client on iOS with both channels open. *)
Definition both_open_on_ios : World :=
  set_sftp true (set_shell true (fresh_world "ios" "1a2b" "example.org" 22 "root")).

(** A client off iOS whose SFTP session was opened by a successful
    connect. *)
Definition sftp_open_on_android : World :=
  let w := fresh_world "android" "1a2b" "example.org" 22 "root" in
  (connectSFTP_done None None (connectSFTP w).2).2.

(** The same client on iOS. *)
Definition sftp_open_on_ios : World :=
  let w := fresh_world "ios" "1a2b" "example.org" 22 "root" in
  (connectSFTP_done None None (connectSFTP w).2).2.

(** A stand-in for [JSON.parse] that shares one fact with it: the empty
    text is not JSON.  Any other text is taken for an entry of that
    name. *)
Definition parse_nonempty (p : jsstring) : option LsResult :=
  match p with
  | [] => None
  | _ => Some (mkLsResult p false [] [] 0 0 0 0)
  end.

(** A listing whose second raw entry is a lone line feed: stripped, it
    is the empty text. *)
Definition listing_with_blank_entry : list jsstring := [[123; 125]%N; [10]%N].

(** A listing whose entry carries an embedded control character. *)
Definition listing_with_control : list jsstring := [[123; 9; 125]%N].

(** A handler that always throws. *)
Definition throwing_handler (h : EventHandler) (v : string) (w : World) : Outcome :=
  Raises "handler failed" w.

(** A client with a [Shell] handler, and events that are not for it. *)
Definition listening_client : World :=
  on "Shell" 7 (fresh_world "android" "1a2b" "example.org" 22 "root").

(** * Properties *)

(** ** Frame lemmas: what each building block leaves alone *)

Lemma new_effects_app w w' l : effects w' = effects w ++ l → new_effects w w' = l.
Proof. intros E. unfold new_effects. rewrite E. apply drop_app_length. Qed.

Lemma app_singleton_neq {A} (l : list A) (x : A) : l ++ [x] ≠ l.
Proof.
  intros E. apply (f_equal length) in E. rewrite length_app in E. simpl in E. lia.
Qed.

Lemma register_effects eventName w :
  effects (registerNativeListener eventName w) = effects w.
Proof. reflexivity. Qed.

Lemma register_key eventName w :
  this_key (registerNativeListener eventName w) = this_key w.
Proof. reflexivity. Qed.

Lemma register_activeStream eventName w :
  _activeStream (client (registerNativeListener eventName w)) = _activeStream (client w).
Proof. reflexivity. Qed.

Lemma unregister_effects eventName w :
  effects (unregisterNativeListener eventName w) = effects w.
Proof. unfold unregisterNativeListener. by destruct (_ !! _). Qed.

Lemma unregister_key eventName w :
  this_key (unregisterNativeListener eventName w) = this_key w.
Proof. unfold unregisterNativeListener. by destruct (_ !! _). Qed.

Lemma unregister_activeStream eventName w :
  _activeStream (client (unregisterNativeListener eventName w)) = _activeStream (client w).
Proof. unfold unregisterNativeListener. by destruct (_ !! _). Qed.

Lemma unregister_OS eventName w :
  OS (unregisterNativeListener eventName w) = OS w.
Proof. unfold unregisterNativeListener. by destruct (_ !! _). Qed.

Lemma unregister_lookup eventName w :
  _listeners (client (unregisterNativeListener eventName w)) !! eventName = None.
Proof.
  unfold unregisterNativeListener.
  destruct (_listeners (client w) !! eventName) eqn:E; simpl; [|done].
  apply lookup_delete_eq.
Qed.

Lemma unregister_lookup_ne eventName other w :
  eventName ≠ other →
  _listeners (client (unregisterNativeListener eventName w)) !! other
  = _listeners (client w) !! other.
Proof.
  intros Hne. unfold unregisterNativeListener.
  destruct (_listeners (client w) !! eventName) eqn:E; simpl; [|done].
  by apply lookup_delete_ne.
Qed.

Lemma call_callback_client callback error response w :
  client (call_callback callback error response w) = client w.
Proof. by destruct callback. Qed.

Lemma call_callback_emitter callback error response w :
  emitter (call_callback callback error response w) = emitter w.
Proof. by destruct callback. Qed.

(** ** Shell start *)

(** C1. When the shell is open, [startShell] returns a promise already
    resolved with the empty string and changes nothing: no listener is
    registered and nothing is sent to the native module.  A native
    [startShell] request appears among the effects of the call only if the
    shell was closed. *)
Theorem startShell_open_is_noop (ptyType : PtyType) (w : World) :
  (shellActive w = true → startShell ptyType w = (Resolved "", w)) ∧
  (∀ k p, Native (N_startShell k p) ∈ new_effects w (startShell ptyType w).2 →
          shellActive w = false) ∧
  (shellActive w = false →
   (startShell ptyType w).1 = Pending ∧
   new_effects w (startShell ptyType w).2 = [Native (N_startShell (this_key w) ptyType)]).
Proof.
  unfold startShell. destruct (shellActive w) eqn:Hs; simpl.
  - split; [done|]. split; [|done].
    intros k p. unfold new_effects. rewrite drop_all. by intros ?%elem_of_nil.
  - split; [done|]. split; [done|]. intros _. split; [done|].
    apply new_effects_app. reflexivity.
Qed.

Lemma startShell_open_is_noop_witness :
  shellActive shell_open_world = true ∧
  startShell XTERM shell_open_world = (Resolved "", shell_open_world).
Proof.
  split; [reflexivity|].
  apply (proj1 (startShell_open_is_noop XTERM shell_open_world)). reflexivity.
Defined.

(** C10. From a closed shell, a failed native shell open rejects the
    promise with the native error and leaves the shell flag false, while
    the [Shell] subscription made before the native call is still in the
    listener table and still live in the emitter. *)
Theorem startShell_failure_keeps_listener
    (ptyType : PtyType) (callback : option CallbackFunction)
    (e : Error) (response : string) (w : World) :
  shellActive w = false →
  let started := startShell ptyType w in
  let failed := startShell_done callback (Some e) response started.2 in
  started.1 = Pending ∧
  failed.1 = Reject e ∧
  shellActive failed.2 = false ∧
  ∃ s, _listeners (client failed.2) !! NATIVE_EVENT_SHELL = Some s ∧
       sub_event s = NATIVE_EVENT_SHELL ∧
       s ∈ emitter failed.2.
Proof.
  intros Hs started failed. subst failed started.
  unfold startShell. rewrite Hs. simpl.
  split; [done|]. split; [done|]. split.
  - unfold shellActive. rewrite call_callback_client. exact Hs.
  - eexists. rewrite call_callback_client, call_callback_emitter. simpl.
    split; [apply lookup_insert_eq|]. split; [done|].
    apply elem_of_app. right. apply list_elem_of_singleton. done.
Qed.

Lemma startShell_failure_keeps_listener_witness :
  let w := fresh_world "android" "1a2b" "example.org" 22 "root" in
  shellActive w = false ∧
  (startShell_done None (Some "no pty") "" (startShell VT100 w).2).1 = Reject "no pty" ∧
  is_Some (_listeners (client (startShell_done None (Some "no pty") ""
                                 (startShell VT100 w).2).2) !! NATIVE_EVENT_SHELL).
Proof.
  split; [reflexivity|].
  pose proof (startShell_failure_keeps_listener VT100 None "no pty" ""
                (fresh_world "android" "1a2b" "example.org" 22 "root")
                eq_refl) as (_ & Hr & _ & s & Hl & _).
  split; [exact Hr|]. exists s. exact Hl.
Defined.

(** ** SFTP connect *)

(** C2.  The completion callback of the native SFTP connect sets the
    [sftp] flag and registers both progress listeners before it looks at
    [error]: when the connect fails the promise is rejected, yet the flag
    is true, and a later [checkSFTP] takes the session for open and sends
    no connect request. *)
Theorem connectSFTP_failure_sets_active
    (callback : option CallbackFunction) (e : Error) (w : World) :
  let failed := connectSFTP_done callback (Some e) (connectSFTP w).2 in
  failed.1 = Reject e ∧
  sftpActive failed.2 = true ∧
  checkSFTP failed.2 = (Resolved (), failed.2).
Proof.
  intros failed.
  assert (Ha : sftpActive failed.2 = true).
  { subst failed. unfold connectSFTP_done. simpl.
    unfold sftpActive. by rewrite call_callback_client. }
  split; [done|]. split; [done|].
  unfold checkSFTP. by rewrite Ha.
Qed.

(** The same on a fresh client: the flag was false, the connect failed,
    the flag is true. *)
Example connectSFTP_failure_on_fresh_client :
  let w := fresh_world "android" "1a2b" "example.org" 22 "root" in
  let failed := connectSFTP_done None (Some "channel refused") (connectSFTP w).2 in
  sftpActive w = false ∧ failed.1 = Reject "channel refused" ∧ sftpActive failed.2 = true.
Proof. repeat split. Qed.

(** By contrast the shell's completion callback tests [error] first. *)
Lemma startShell_done_failure_keeps_flag callback e response w :
  shellActive (startShell_done callback (Some e) response w).2 = shellActive w.
Proof. simpl. unfold shellActive. by rewrite call_callback_client. Qed.

(** ** Native subscriptions *)

Lemma active_subscriptions_app eventName w l :
  filter (λ s, sub_event s = eventName) (emitter w ++ l)
  = active_subscriptions eventName w ++ filter (λ s, sub_event s = eventName) l.
Proof. unfold active_subscriptions. apply filter_app. Qed.

(** C3, as the code has it.  [registerNativeListener] has no guard and
    removes nothing: every call adds one fresh subscription to the
    emitter, after those already live for that event name, and stores its
    handle in the listener table in place of whatever handle was there.
    The table holds one handle per name; the emitter holds one
    subscription per call. *)
Theorem registerNativeListener_adds_one (eventName : string) (w : World) :
  let w' := registerNativeListener eventName w in
  let s := mkSub (next_sub w) (listenerInterface w) eventName in
  _listeners (client w') !! eventName = Some s ∧
  emitter w' = emitter w ++ [s] ∧
  active_subscriptions eventName w' = active_subscriptions eventName w ++ [s] ∧
  length (active_subscriptions eventName w')
  = S (length (active_subscriptions eventName w)).
Proof.
  intros w' s.
  assert (Hem : emitter w' = emitter w ++ [s]) by reflexivity.
  assert (E : active_subscriptions eventName w' = active_subscriptions eventName w ++ [s]).
  { unfold active_subscriptions at 1. rewrite Hem, active_subscriptions_app.
    f_equal. rewrite filter_cons_True by done. by rewrite filter_nil. }
  split; [apply lookup_insert_eq|]. split; [exact Hem|].
  split; [exact E|]. rewrite E, length_app. simpl. lia.
Qed.

(** C3 fails as stated: after a failed shell start and a second one, two
    [Shell] subscriptions of the same client are live, only the second is
    in the listener table, and one emitted event reaches the client's
    handler twice. *)
Lemma duplicate_shell_subscription :
  ¬ (length (active_subscriptions NATIVE_EVENT_SHELL shell_started_twice) ≤ 1) ∧
  active_subscriptions NATIVE_EVENT_SHELL shell_started_twice
  = [mkSub 0 DeviceEventEmitter "Shell"; mkSub 1 DeviceEventEmitter "Shell"] ∧
  _listeners (client shell_started_twice) !! NATIVE_EVENT_SHELL
  = Some (mkSub 1 DeviceEventEmitter "Shell") ∧
  ∃ w', emit recording_handler quiet_builtin no_function_properties
             "Shell" (mkEvent "Shell" "1a2b" "$ ")
             (on "Shell" 7 shell_started_twice) = Returns w' ∧
        new_effects shell_started_twice w' = [HandlerCall 7 "$ "; HandlerCall 7 "$ "].
Proof.
  split; [vm_compute; lia|]. split; [reflexivity|]. split; [reflexivity|].
  eexists. split; reflexivity.
Qed.

(** ** Transfer counters *)

Lemma upload_done_counts callback error w :
  uploadCount (upload_done callback error w).2 = (uploadCount w - 1)%Z ∧
  downloadCount (upload_done callback error w).2 = downloadCount w.
Proof.
  unfold uploadCount, downloadCount, upload_done.
  destruct error; simpl; by rewrite call_callback_client.
Qed.

Lemma sftpDownload_done_counts callback error response w :
  downloadCount (sftpDownload_done callback error response w).2 = (downloadCount w - 1)%Z ∧
  uploadCount (sftpDownload_done callback error response w).2 = uploadCount w.
Proof.
  unfold uploadCount, downloadCount, sftpDownload_done.
  destruct error; simpl; by rewrite call_callback_client.
Qed.

Lemma sftpCancelUpload_counts w :
  uploadCount (sftpCancelUpload w) = uploadCount w ∧
  downloadCount (sftpCancelUpload w) = downloadCount w.
Proof. unfold sftpCancelUpload. by destruct (0 <? uploadCount w)%Z. Qed.

Lemma sftpCancelDownload_counts w :
  uploadCount (sftpCancelDownload w) = uploadCount w ∧
  downloadCount (sftpCancelDownload w) = downloadCount w.
Proof. unfold sftpCancelDownload. by destruct (0 <? downloadCount w)%Z. Qed.

Lemma transfer_step_counts t t' :
  transfer_step t t' → counts_in_flight t → counts_in_flight t'.
Proof.
  unfold counts_in_flight.
  destruct 1; simpl; intros [Hu Hd].
  - split; [|done]. change (uploadCount w + 1 = Z.of_nat (S u))%Z. lia.
  - split; [|done]. change (uploadCount w + 1 = Z.of_nat (S u))%Z. lia.
  - split; [|done]. change (uploadCount w + 1 = Z.of_nat (S u))%Z. lia.
  - destruct (upload_done_counts cb err w) as [-> ->]. lia.
  - split; [done|]. change (downloadCount w + 1 = Z.of_nat (S d))%Z. lia.
  - destruct (sftpDownload_done_counts cb err resp w) as [-> ->]. lia.
  - by destruct (sftpCancelUpload_counts w) as [-> ->].
  - by destruct (sftpCancelDownload_counts w) as [-> ->].
  - unfold uploadCount, downloadCount in *. by rewrite H.
Qed.

Lemma unregister_counters eventName w :
  _counters (client (unregisterNativeListener eventName w)) = _counters (client w).
Proof. unfold unregisterNativeListener. by destruct (_ !! _). Qed.

Lemma closeShell_keeps_counters : keeps_counters closeShell.
Proof. intros w. unfold closeShell. simpl. apply unregister_counters. Qed.

Lemma disconnectSFTP_keeps_counters : keeps_counters disconnectSFTP.
Proof.
  intros w. unfold disconnectSFTP.
  destruct (String.eqb (OS w) "ios"); [done|]. simpl.
  by rewrite !unregister_counters.
Qed.

Lemma disconnect_keeps_counters : keeps_counters disconnect.
Proof.
  intros w. unfold disconnect.
  set (w1 := if shellActive w then closeShell w else w).
  assert (H1 : _counters (client w1) = _counters (client w)).
  { subst w1. destruct (shellActive w); [apply closeShell_keeps_counters|done]. }
  change (_counters (client (if sftpActive w1 then disconnectSFTP w1 else w1))
          = _counters (client w)).
  destruct (sftpActive w1); [|done]. by rewrite disconnectSFTP_keeps_counters.
Qed.

Lemma startShell_keeps_counters ptyType :
  keeps_counters (λ w, (startShell ptyType w).2).
Proof. intros w. unfold startShell. by destruct (shellActive w). Qed.

Lemma startShell_done_keeps_counters callback error response :
  keeps_counters (λ w, (startShell_done callback error response w).2).
Proof.
  intros w. unfold startShell_done.
  destruct error; simpl; by rewrite call_callback_client.
Qed.

Lemma connectSFTP_keeps_counters : keeps_counters (λ w, (connectSFTP w).2).
Proof. intros w. unfold connectSFTP. by destruct (sftpActive w). Qed.

Lemma connectSFTP_done_keeps_counters callback error :
  keeps_counters (λ w, (connectSFTP_done callback error w).2).
Proof.
  intros w. unfold connectSFTP_done.
  destruct error; simpl; by rewrite call_callback_client.
Qed.

Lemma reachable_counts w0 t :
  uploadCount w0 = 0%Z → downloadCount w0 = 0%Z →
  reachable w0 t → counts_in_flight t.
Proof.
  intros Hu Hd Hr. unfold reachable in Hr. revert t Hr.
  apply (rtc_ind_r (λ t, counts_in_flight t)).
  - by split.
  - intros t t' _ Hstep IH. by apply (transfer_step_counts t t').
Qed.

(** C4, as the code has it.  Starting from a fresh client, after any
    interleaving of transfer requests, completions (successful or failed),
    cancellations and other methods, in which every completion callback
    fires once, both
    counters are non-negative, and each is zero as soon as no callback of
    its direction is outstanding.  The completion callbacks subtract one
    unconditionally; nothing clamps. *)
Theorem counters_nonnegative_and_return_to_zero
    (os key host : string) (port : Z) (username : string) (t : Transfers) :
  reachable (fresh_world os key host port username) t →
  (0 ≤ uploadCount (world t))%Z ∧
  (0 ≤ downloadCount (world t))%Z ∧
  (uploads_in_flight t = 0 → uploadCount (world t) = 0%Z) ∧
  (downloads_in_flight t = 0 → downloadCount (world t) = 0%Z) ∧
  (∀ callback error,
     uploadCount (upload_done callback error (world t)).2 = (uploadCount (world t) - 1)%Z) ∧
  (∀ callback error response,
     downloadCount (sftpDownload_done callback error response (world t)).2
     = (downloadCount (world t) - 1)%Z).
Proof.
  intros Hr. apply reachable_counts in Hr as [Hu Hd]; [|done..].
  split; [lia|]. split; [lia|]. split; [lia|]. split; [lia|]. split.
  - intros. apply upload_done_counts.
  - intros. apply sftpDownload_done_counts.
Qed.

Lemma counters_nonnegative_and_return_to_zero_witness :
  uploadCount (world three_transfers) = 0%Z ∧
  downloadCount (world three_transfers) = 0%Z.
Proof.
  assert (Hr : reachable (fresh_world "android" "1a2b" "example.org" 22 "root")
                 three_transfers).
  { unfold reachable, three_transfers.
    eapply rtc_l; [apply (step_upload "a.txt" "/tmp")|].
    eapply rtc_l; [apply (step_download "/etc/motd" "/sdcard")|].
    eapply rtc_l; [apply (step_upload_base64 "aGk=" "/tmp" "b.txt")|].
    eapply rtc_l; [apply (step_upload_done None (Some "quota"))|].
    eapply rtc_l; [apply (step_download_done (Some 3) None "/sdcard/motd")|].
    eapply rtc_l; [apply (step_upload_done None None)|].
    apply rtc_refl. }
  destruct (counters_nonnegative_and_return_to_zero _ _ _ _ _ _ Hr)
    as (_ & _ & Hu & Hd & _).
  split; [apply Hu | apply Hd]; reflexivity.
Defined.

(** C4 fails as stated: a completion callback that runs with the counter
    at zero leaves it at minus one, not at zero. *)
Lemma upload_counter_not_clamped :
  let w := fresh_world "android" "1a2b" "example.org" 22 "root" in
  uploadCount w = 0%Z ∧
  ¬ (0 ≤ uploadCount (sftpUpload_done None None w).2)%Z ∧
  uploadCount (sftpUpload_done None None w).2 = (-1)%Z ∧
  downloadCount (sftpDownload_done None None "" w).2 = (-1)%Z.
Proof. repeat split. vm_compute. intros H. by apply H. Qed.

(** ** Cancellation *)

(** C5.  [sftpCancelUpload] sends the native cancel request exactly when
    the upload counter is positive, and is the identity otherwise;
    likewise [sftpCancelDownload] with the download counter. *)
Theorem cancel_forwarded_iff_in_flight (w : World) :
  (new_effects w (sftpCancelUpload w) = [Native (N_sftpCancelUpload (this_key w))]
   ↔ (0 < uploadCount w)%Z) ∧
  (sftpCancelUpload w = w ↔ (uploadCount w ≤ 0)%Z) ∧
  (new_effects w (sftpCancelDownload w) = [Native (N_sftpCancelDownload (this_key w))]
   ↔ (0 < downloadCount w)%Z) ∧
  (sftpCancelDownload w = w ↔ (downloadCount w ≤ 0)%Z).
Proof.
  assert (Hself : ∀ c, native c w ≠ w).
  { intros c E. apply (f_equal effects) in E. simpl in E.
    by apply app_singleton_neq in E. }
  assert (Hnil : ∀ c : Effect, new_effects w w ≠ [c]).
  { intros c. unfold new_effects. by rewrite drop_all. }
  unfold sftpCancelUpload, sftpCancelDownload.
  destruct (Z.ltb_spec 0 (uploadCount w)), (Z.ltb_spec 0 (downloadCount w));
    repeat split; intros; try lia; try done;
    try (by apply new_effects_app);
    try (exfalso; eapply Hself; eassumption);
    try (exfalso; eapply Hnil; eassumption).
Qed.

Example cancel_with_nothing_in_flight :
  let w := fresh_world "android" "1a2b" "example.org" 22 "root" in
  sftpCancelUpload w = w ∧ sftpCancelDownload w = w.
Proof. split; reflexivity. Qed.

Example cancel_with_upload_in_flight :
  let w := sftpUpload_start "a.txt" "/tmp"
             (fresh_world "android" "1a2b" "example.org" 22 "root") in
  new_effects w (sftpCancelUpload w) = [Native (N_sftpCancelUpload "1a2b")] ∧
  sftpCancelDownload w = w.
Proof. split; reflexivity. Qed.

(** ** Teardown *)

Lemma closeShell_spec w :
  effects (closeShell w) = effects w ++ [Native (N_closeShell (this_key w))] ∧
  this_key (closeShell w) = this_key w ∧
  OS (closeShell w) = OS w ∧
  shellActive (closeShell w) = false ∧
  sftpActive (closeShell w) = sftpActive w.
Proof.
  unfold closeShell, shellActive, sftpActive. simpl.
  rewrite unregister_effects, unregister_key, unregister_OS, unregister_activeStream.
  split; [done|]. split; [|done].
  change (this_key (unregisterNativeListener NATIVE_EVENT_SHELL w) = this_key w).
  apply unregister_key.
Qed.

Lemma disconnectSFTP_ios w : OS w = "ios" → disconnectSFTP w = w.
Proof. intros E. unfold disconnectSFTP. by rewrite E. Qed.

Lemma not_ios_eqb w : OS w ≠ "ios" → String.eqb (OS w) "ios" = false.
Proof. intros Hne. by apply String.eqb_neq. Qed.

Lemma disconnectSFTP_spec w :
  OS w ≠ "ios" →
  effects (disconnectSFTP w) = effects w ++ [Native (N_disconnectSFTP (this_key w))] ∧
  this_key (disconnectSFTP w) = this_key w ∧
  sftpActive (disconnectSFTP w) = false ∧
  shellActive (disconnectSFTP w) = shellActive w.
Proof.
  intros Hne. unfold disconnectSFTP. rewrite not_ios_eqb by done.
  set (w1 := unregisterNativeListener NATIVE_EVENT_DOWNLOAD_PROGRESS w).
  set (w2 := unregisterNativeListener NATIVE_EVENT_UPLOAD_PROGRESS w1).
  assert (Hk : this_key w2 = this_key w)
    by (subst w2 w1; by rewrite !unregister_key).
  assert (He : effects w2 = effects w)
    by (subst w2 w1; by rewrite !unregister_effects).
  assert (Ha : _activeStream (client w2) = _activeStream (client w))
    by (subst w2 w1; by rewrite !unregister_activeStream).
  cbn [negb]. split; [|split; [|split]].
  - change (effects w2 ++ [Native (N_disconnectSFTP (this_key w2))]
            = effects w ++ [Native (N_disconnectSFTP (this_key w))]).
    by rewrite He, Hk.
  - exact Hk.
  - reflexivity.
  - change (shell (_activeStream (client w2)) = shell (_activeStream (client w))).
    by rewrite Ha.
Qed.

(** The two conditional steps of [disconnect]. *)
Lemma disconnect_shell_step w :
  let w1 := if shellActive w then closeShell w else w in
  effects w1
  = effects w ++ (if shellActive w then [Native (N_closeShell (this_key w))] else []) ∧
  this_key w1 = this_key w ∧
  OS w1 = OS w ∧
  shellActive w1 = false ∧
  sftpActive w1 = sftpActive w.
Proof.
  destruct (shellActive w) eqn:Hs; simpl.
  - apply closeShell_spec.
  - by rewrite app_nil_r.
Qed.

Lemma disconnect_sftp_step w :
  let w2 := if sftpActive w then disconnectSFTP w else w in
  effects w2
  = effects w ++ (if sftpActive w && negb (String.eqb (OS w) "ios")
                  then [Native (N_disconnectSFTP (this_key w))] else []) ∧
  this_key w2 = this_key w ∧
  shellActive w2 = shellActive w ∧
  sftpActive w2 = sftpActive w && String.eqb (OS w) "ios".
Proof.
  destruct (sftpActive w) eqn:Hs; cbn [andb].
  - destruct (String.eqb (OS w) "ios") eqn:Hos; cbn [negb].
    + rewrite disconnectSFTP_ios by (by apply String.eqb_eq).
      by rewrite app_nil_r.
    + destruct (disconnectSFTP_spec w) as (E & K & F & S);
        [by apply String.eqb_neq|]. done.
  - by rewrite app_nil_r.
Qed.

(** C6, as the code has it.  [disconnect] sends, in this order: the
    native shell close if the shell flag is set; the native SFTP
    disconnect if the SFTP flag is set and the platform is not iOS; and
    then, always and last, the transport-level disconnect.  On iOS the
    SFTP step sends nothing. *)
Theorem disconnect_order (w : World) :
  effects (disconnect w)
  = effects w ++ channel_teardown w ++ [Native (N_disconnect (this_key w))] ∧
  last (effects (disconnect w)) = Some (Native (N_disconnect (this_key w))) ∧
  shellActive (disconnect w) = false ∧
  sftpActive (disconnect w) = sftpActive w && String.eqb (OS w) "ios".
Proof.
  destruct (disconnect_shell_step w) as (E1 & K1 & O1 & S1 & F1).
  destruct (disconnect_sftp_step (if shellActive w then closeShell w else w))
    as (E2 & K2 & S2 & F2).
  set (w1 := if shellActive w then closeShell w else w) in *.
  set (w2 := if sftpActive w1 then disconnectSFTP w1 else w1) in *.
  assert (E : effects (disconnect w)
              = effects w ++ channel_teardown w ++ [Native (N_disconnect (this_key w))]).
  { change (effects w2 ++ [Native (N_disconnect (this_key w2))]
            = effects w ++ channel_teardown w ++ [Native (N_disconnect (this_key w))]).
    unfold channel_teardown. rewrite E2, E1, K2, K1, F1, O1.
    by rewrite <- !app_assoc. }
  split; [exact E|]. split; [|split].
  - rewrite E, !app_assoc. apply last_snoc.
  - change (shellActive w2 = false). by rewrite S2.
  - change (sftpActive w2 = sftpActive w && String.eqb (OS w) "ios").
    by rewrite F2, F1, O1.
Qed.

(** C6 fails as stated: on iOS, with the SFTP flag set, [disconnect]
    sends no SFTP disconnect; the shell close is followed directly by the
    transport-level disconnect. *)
Lemma disconnect_on_ios_skips_sftp :
  sftpActive both_open_on_ios = true ∧
  (Native (N_disconnectSFTP "1a2b")
     ∉ new_effects both_open_on_ios (disconnect both_open_on_ios)) ∧
  new_effects both_open_on_ios (disconnect both_open_on_ios)
  = [Native (N_closeShell "1a2b"); Native (N_disconnect "1a2b")].
Proof.
  split; [reflexivity|].
  assert (E : new_effects both_open_on_ios (disconnect both_open_on_ios)
              = [Native (N_closeShell "1a2b"); Native (N_disconnect "1a2b")])
    by reflexivity.
  split; [|exact E]. rewrite E. intros H.
  apply elem_of_cons in H as [H|H]; [discriminate|].
  apply elem_of_cons in H as [H|H]; [discriminate|].
  by apply elem_of_nil in H.
Qed.

Lemma unregister_emitter_incl eventName w s :
  s ∈ emitter (unregisterNativeListener eventName w) → s ∈ emitter w.
Proof.
  unfold unregisterNativeListener.
  destruct (_listeners (client w) !! eventName) as [l|]; simpl; [|done].
  by intros [_ ?]%list_elem_of_filter.
Qed.

Lemma unregister_removes eventName w s :
  _listeners (client w) !! eventName = Some s →
  s ∉ emitter (unregisterNativeListener eventName w).
Proof.
  intros E. unfold unregisterNativeListener. rewrite E. simpl.
  by intros [? _]%list_elem_of_filter.
Qed.

(** C7, as the code has it.  Off iOS, [disconnectSFTP] removes both
    progress subscriptions from the listener table and from the emitter,
    sends the native SFTP disconnect, and clears the SFTP flag.  (On iOS
    the method is the identity: [disconnectSFTP_ios].) *)
Theorem disconnectSFTP_off_ios (w : World) :
  OS w ≠ "ios" →
  let w' := disconnectSFTP w in
  _listeners (client w') !! NATIVE_EVENT_DOWNLOAD_PROGRESS = None ∧
  _listeners (client w') !! NATIVE_EVENT_UPLOAD_PROGRESS = None ∧
  (∀ s, _listeners (client w) !! NATIVE_EVENT_DOWNLOAD_PROGRESS = Some s ∨
        _listeners (client w) !! NATIVE_EVENT_UPLOAD_PROGRESS = Some s →
        s ∉ emitter w') ∧
  new_effects w w' = [Native (N_disconnectSFTP (this_key w))] ∧
  sftpActive w' = false.
Proof.
  intros Hne w'.
  destruct (disconnectSFTP_spec w Hne) as (E & _ & F & _).
  assert (Hnames : NATIVE_EVENT_DOWNLOAD_PROGRESS ≠ NATIVE_EVENT_UPLOAD_PROGRESS)
    by discriminate.
  set (w1 := unregisterNativeListener NATIVE_EVENT_DOWNLOAD_PROGRESS w).
  set (w2 := unregisterNativeListener NATIVE_EVENT_UPLOAD_PROGRESS w1).
  assert (Hl : _listeners (client w') = _listeners (client w2)).
  { subst w'. unfold disconnectSFTP. by rewrite not_ios_eqb. }
  assert (Hm : emitter w' = emitter w2).
  { subst w'. unfold disconnectSFTP. by rewrite not_ios_eqb. }
  split; [|split; [|split; [|split]]].
  - rewrite Hl. subst w2.
    rewrite unregister_lookup_ne by done. apply unregister_lookup.
  - rewrite Hl. apply unregister_lookup.
  - intros s Hs. rewrite Hm. destruct Hs as [Hs|Hs].
    + intros Hin%unregister_emitter_incl. by eapply unregister_removes.
    + apply unregister_removes. subst w1.
      by rewrite unregister_lookup_ne.
  - by apply new_effects_app.
  - exact F.
Qed.

Lemma disconnectSFTP_off_ios_witness :
  OS sftp_open_on_android ≠ "ios" ∧
  sftpActive sftp_open_on_android = true ∧
  emitter (disconnectSFTP sftp_open_on_android) = [] ∧
  new_effects sftp_open_on_android (disconnectSFTP sftp_open_on_android)
  = [Native (N_disconnectSFTP "1a2b")] ∧
  sftpActive (disconnectSFTP sftp_open_on_android) = false.
Proof.
  assert (Hne : OS sftp_open_on_android ≠ "ios") by discriminate.
  destruct (disconnectSFTP_off_ios sftp_open_on_android Hne) as (_ & _ & _ & He & Hf).
  split; [exact Hne|]. split; [reflexivity|]. split; [reflexivity|].
  split; [exact He | exact Hf].
Defined.

(** C7 fails as stated: on iOS [disconnectSFTP] sends nothing, keeps
    both progress subscriptions and leaves the SFTP flag set. *)
Lemma disconnectSFTP_on_ios_does_nothing :
  sftpActive sftp_open_on_ios = true ∧
  ¬ (sftpActive (disconnectSFTP sftp_open_on_ios) = false) ∧
  new_effects sftp_open_on_ios (disconnectSFTP sftp_open_on_ios) = [] ∧
  length (emitter (disconnectSFTP sftp_open_on_ios)) = 2 ∧
  disconnectSFTP sftp_open_on_ios = sftp_open_on_ios.
Proof. repeat split. vm_compute. discriminate. Qed.

(** ** Directory listings *)

Lemma strip_control_spec (p : jsstring) (c : code_unit) :
  c ∈ strip_control p ↔ c ∈ p ∧ (31 < c)%N.
Proof.
  unfold strip_control. rewrite !list_elem_of_In, List.filter_In.
  unfold is_control. rewrite negb_true_iff, N.leb_gt. done.
Qed.

Lemma strip_control_no_control (p : jsstring) :
  Forall (λ c, (31 < c)%N) (strip_control p).
Proof. apply Forall_forall. by intros c [_ ?]%strip_control_spec. Qed.

Lemma strip_control_clean (p : jsstring) :
  Forall (λ c, (31 < c)%N) p → strip_control p = p.
Proof.
  induction p as [|c p IH]; intros H; [done|].
  apply Forall_cons in H as [Hc Hp]. apply N.leb_gt in Hc.
  unfold strip_control in *. cbn [List.filter]. unfold is_control at 1.
  rewrite Hc. cbn [negb]. f_equal. by apply IH.
Qed.

Section Listing.

Variable JSON_parse : jsstring → option LsResult.

Lemma decode_entries_Some raw l :
  decode_entries JSON_parse raw = Some l ↔
  Forall2 (λ p r, JSON_parse (strip_control p) = Some r) raw l.
Proof. unfold decode_entries. apply mapM_Some. Qed.

Lemma decode_entries_None raw :
  decode_entries JSON_parse raw = None ↔
  Exists (λ p, JSON_parse (strip_control p) = None) raw.
Proof. unfold decode_entries. apply mapM_None. Qed.

(** C8, as the code has it.  Every raw entry is stripped of the code
    units U+0000 to U+001F before it is decoded, and the decoder sees
    nothing else of it.  When every stripped entry decodes, the callback
    and the promise receive the complete list, one decoded entry per raw
    entry, in order: the user callback is called with it, beside the
    native error, and the promise is resolved with it unless the native
    error is truthy.  When some stripped entry does not decode, no list
    is delivered at all, whole or partial: the decoder's exception
    leaves the completion callback before the user callback is called
    and before the promise is settled, so the promise is neither
    resolved nor rejected. *)
Theorem sftpLs_all_or_nothing
    (callback : option CallbackFunction) (error : option Error)
    (raw : list jsstring) (w : World) :
  (∀ p, p ∈ raw → Forall (λ c, (31 < c)%N) (strip_control p)) ∧
  (∀ l w', sftpLs_done JSON_parse callback error (Some raw) w = (Resolve (Some l), w') →
           Forall2 (λ p r, JSON_parse (strip_control p) = Some r) raw l ∧
           length l = length raw) ∧
  (Forall (λ p, is_Some (JSON_parse (strip_control p))) raw →
   ∃ l, Forall2 (λ p r, JSON_parse (strip_control p) = Some r) raw l ∧
        sftpLs_done JSON_parse callback error (Some raw) w
        = sftpLs_settle callback error (Some l) w ∧
        sftpLs_done JSON_parse callback error (Some raw) w
        = (match error with
           | Some e => Reject e
           | None => Resolve (Some l)
           end,
           match callback with
           | Some f => emit_effect (UserCallback f error (REntries l)) w
           | None => w
           end)) ∧
  (Exists (λ p, JSON_parse (strip_control p) = None) raw →
   sftpLs_done JSON_parse callback error (Some raw) w = (Uncaught "SyntaxError", w)).
Proof.
  split; [intros p _; apply strip_control_no_control|].
  unfold sftpLs_done.
  destruct (decode_entries JSON_parse raw) as [l|] eqn:E.
  - apply decode_entries_Some in E as H2.
    split; [|split].
    + intros l' w' Heq. unfold sftpLs_settle in Heq.
      destruct error; [discriminate|].
      injection Heq as -> _. split; [done|]. symmetry. by eapply Forall2_length.
    + intros _. exists l. split; [done|]. split; [done|].
      unfold sftpLs_settle. by destruct error, callback.
    + intros Hex%decode_entries_None. congruence.
  - split; [|split].
    + intros l w' Heq. discriminate.
    + intros Hall. apply decode_entries_None in E.
      apply Exists_exists in E as (p & Hp & Hn).
      rewrite Forall_forall in Hall. destruct (Hall p Hp) as [? ?]. congruence.
    + done.
Qed.

End Listing.

Lemma sftpLs_all_or_nothing_witness :
  let w := fresh_world "android" "1a2b" "example.org" 22 "root" in
  strip_control [123; 9; 125]%N = [123; 125]%N ∧
  sftpLs_done parse_nonempty (Some 5) None (Some listing_with_control) w
  = (Resolve (Some [mkLsResult [123; 125]%N false [] [] 0 0 0 0]),
     emit_effect (UserCallback 5 None
                    (REntries [mkLsResult [123; 125]%N false [] [] 0 0 0 0])) w) ∧
  sftpLs_done parse_nonempty (Some 5) None (Some listing_with_blank_entry) w
  = (Uncaught "SyntaxError", w).
Proof.
  split; [reflexivity|]. split; [reflexivity|].
  apply (sftpLs_all_or_nothing parse_nonempty (Some 5) None listing_with_blank_entry).
  apply Exists_cons_tl, Exists_cons_hd. reflexivity.
Defined.

(** C8 fails as stated: with a raw entry that does not decode, and no
    native error, the listing does not end as an operation error.  The
    promise is not rejected, and the user callback is not called. *)
Lemma sftpLs_decode_failure_is_not_a_rejection :
  let w := fresh_world "android" "1a2b" "example.org" 22 "root" in
  let done := sftpLs_done parse_nonempty (Some 5) None (Some listing_with_blank_entry) w in
  ¬ (∃ e, done.1 = Reject e) ∧
  done.1 = Uncaught "SyntaxError" ∧
  new_effects w done.2 = [].
Proof.
  split; [|split; reflexivity]. intros [e He]. vm_compute in He. discriminate.
Qed.

(** ** Event dispatch *)

Section Dispatch.

Variable invoke : EventHandler → string → World → Outcome.
Variable builtin : string → string → World → Outcome.
Variable through_function : EventHandler → string → Lookup.

Lemma read_handler_own eventName h w :
  _handlers (client w) !! eventName = Some h →
  read_handler invoke builtin through_function eventName w = Callable (invoke h).
Proof. intros H. unfold read_handler. by rewrite H. Qed.

Lemma read_handler_inherited eventName w :
  _handlers (client w) !! eventName = None →
  _handlers (client w) !! "__proto__" = None →
  read_handler invoke builtin through_function eventName w
  = if decide (eventName = "__proto__") then NotCallable
    else if decide (eventName ∈ Object_prototype_functions)
         then Callable (builtin eventName)
         else Falsy.
Proof. intros H1 H2. unfold read_handler. by rewrite H1, H2. Qed.

(** C9, as the code has it.  The handler table is a plain object, and
    no handler is stored under ["__proto__"]; then:

    - an event whose key is not the client's key is dropped, whatever its
      name: [handleEvent] returns normally, in the world it was called in;
    - an event whose name has no handler and is not a name the table
      inherits from [Object.prototype] is dropped in the same way;
    - an event with the client's key and a registered name runs the
      handler registered for that name, on the event's value;
    - an event with the client's key and an inherited name is not
      dropped: under ["__proto__"] the call throws a [TypeError], under the
      name of an inherited function that function is called;
    - whenever [handleEvent] does anything, the event has the client's key
      and its name is registered or inherited. *)
Theorem handleEvent_drops_foreign_events (event : NativeEvent) (w : World) :
  _handlers (client w) !! "__proto__" = None →
  let handled := handleEvent invoke builtin through_function event w in
  (this_key w ≠ key event → handled = Returns w) ∧
  (_handlers (client w) !! name event = None →
   name event ≠ "__proto__" → name event ∉ Object_prototype_functions →
   handled = Returns w) ∧
  (∀ h, this_key w = key event → _handlers (client w) !! name event = Some h →
        handled = invoke h (value event) w) ∧
  (this_key w = key event → name event = "__proto__" →
   handled = Raises "TypeError" w) ∧
  (this_key w = key event → _handlers (client w) !! name event = None →
   name event ∈ Object_prototype_functions →
   handled = builtin (name event) (value event) w) ∧
  (handled ≠ Returns w →
   this_key w = key event ∧
   (is_Some (_handlers (client w) !! name event) ∨ name event = "__proto__" ∨
    name event ∈ Object_prototype_functions)).
Proof.
  intros Hp handled. subst handled. unfold handleEvent.
  destruct (_handlers (client w) !! name event) as [h|] eqn:Hh.
  - rewrite (read_handler_own _ h) by done.
    destruct (String.eqb_spec (this_key w) (key event)) as [Hk|Hk].
    + split; [done|]. split; [done|]. split; [by intros h' _ [= ->]|].
      split; [intros _ Hn; congruence|]. split; [done|].
      intros _. split; [done|]. left. by eexists.
    + split; [done|]. split; [done|]. split; [done|]. split; [done|].
      split; [done|]. by intros [].
  - rewrite read_handler_inherited by done.
    destruct (decide (name event = "__proto__")) as [Hn|Hn];
      [|destruct (decide (name event ∈ Object_prototype_functions)) as [Hf|Hf]];
      destruct (String.eqb_spec (this_key w) (key event)) as [Hk|Hk];
      repeat split; try done; try (intros; congruence); eauto.
    intros _ _ Hin. rewrite Hn in Hin. vm_compute in Hin.
    by repeat (apply elem_of_cons in Hin as [Hin|Hin]; [discriminate|]);
      apply elem_of_nil in Hin.
Qed.

End Dispatch.

Lemma handleEvent_drops_foreign_events_witness :
  handleEvent throwing_handler quiet_builtin no_function_properties
    (mkEvent "Shell" "ffff" "$ ") listening_client
  = Returns listening_client ∧
  handleEvent throwing_handler quiet_builtin no_function_properties
    (mkEvent "UploadProgress" "1a2b" "50") listening_client
  = Returns listening_client ∧
  handleEvent throwing_handler quiet_builtin no_function_properties
    (mkEvent "Shell" "1a2b" "$ ") listening_client
  = Raises "handler failed" listening_client.
Proof.
  split; [|split].
  - destruct (handleEvent_drops_foreign_events throwing_handler quiet_builtin
                no_function_properties (mkEvent "Shell" "ffff" "$ ") listening_client
                eq_refl) as (Hkey & _).
    apply Hkey. intros H. vm_compute in H. discriminate.
  - destruct (handleEvent_drops_foreign_events throwing_handler quiet_builtin
                no_function_properties (mkEvent "UploadProgress" "1a2b" "50")
                listening_client eq_refl) as (_ & Hname & _).
    apply Hname; [reflexivity|discriminate|].
    intros Hin. vm_compute in Hin.
    by repeat (apply elem_of_cons in Hin as [Hin|Hin]; [discriminate|]);
      apply elem_of_nil in Hin.
  - reflexivity.
Defined.

(** C9 fails as stated: no handler is registered under the name
    ["__proto__"], yet an event of that name with the client's key makes
    [handleEvent] throw: the handler table answers the read with
    [Object.prototype], which is truthy and cannot be called.  Under
    ["toString"] the inherited function is called. *)
Lemma handleEvent_raises_on_inherited_name :
  _handlers (client listening_client) !! "__proto__" = None ∧
  handleEvent recording_handler quiet_builtin no_function_properties
    (mkEvent "__proto__" "1a2b" "") listening_client
  = Raises "TypeError" listening_client ∧
  ¬ (handleEvent recording_handler quiet_builtin no_function_properties
       (mkEvent "__proto__" "1a2b" "") listening_client
     = Returns listening_client) ∧
  _handlers (client listening_client) !! "toString" = None ∧
  handleEvent recording_handler (λ n v w, Raises ("called " +:+ n) w)
    no_function_properties (mkEvent "toString" "1a2b" "") listening_client
  = Raises "called toString" listening_client.
Proof.
  split; [reflexivity|]. split; [reflexivity|]. split; [|split; reflexivity].
  intros H. vm_compute in H. discriminate.
Qed.

(** * Further properties of the client *)

(** ** Client keys *)

Lemma hex_digit_is_hex (d : N) : is_hex_char (hex_digit d) = true.
Proof.
  destruct d as [|p]; [reflexivity|].
  do 4 (destruct p as [p|p|]; try reflexivity).
Qed.

Lemma size_nat_large (n : N) : (65536 ≤ n)%N → ∃ k, N.size_nat n = 5 + k.
Proof.
  intros Hn. destruct n as [|p]; [lia|]. simpl.
  assert (H : Pos.size_nat 65535 ≤ Pos.size_nat p) by (apply Pos.size_nat_monotone; lia).
  change (Pos.size_nat 65535) with 16 in H.
  exists (Pos.size_nat p - 5). lia.
Qed.

Lemma div16_facts (n : N) :
  (65536 ≤ n ≤ 131072)%N →
  (n / 16 ≠ 0 ∧ n / 16 / 16 ≠ 0 ∧ n / 16 / 16 / 16 ≠ 0 ∧ n / 16 / 16 / 16 / 16 ≠ 0
   ∧ n / 16 / 16 / 16 / 16 / 16 = 0)%N.
Proof.
  intros Hn.
  rewrite !N.Div0.div_div.
  change (16 * 16 * 16 * 16 * 16)%N with 1048576%N.
  change (16 * 16 * 16 * 16)%N with 65536%N.
  change (16 * 16 * 16)%N with 4096%N.
  change (16 * 16)%N with 256%N.
  repeat split.
  - intros E. apply N.div_small_iff in E; lia.
  - intros E. apply N.div_small_iff in E; lia.
  - intros E. apply N.div_small_iff in E; lia.
  - intros E. apply N.div_small_iff in E; lia.
  - apply N.div_small. lia.
Qed.

(** In the range of the draw the numeral has five digits, the first of
    which [substring(1)] drops. *)
Lemma getRandomClientKey_digits (n : N) :
  (65536 ≤ n ≤ 131072)%N →
  getRandomClientKey n
  = String (hex_digit ((n / 4096) mod 16))
      (String (hex_digit ((n / 256) mod 16))
         (String (hex_digit ((n / 16) mod 16))
            (String (hex_digit (n mod 16)) ""))).
Proof.
  intros Hn. destruct (div16_facts n Hn) as (H1 & H2 & H3 & H4 & H5).
  destruct (size_nat_large n) as [k Hk]; [lia|].
  apply N.eqb_neq in H1, H2, H3, H4. apply N.eqb_eq in H5.
  unfold getRandomClientKey, toString16. rewrite Hk.
  cbn [toString16_digits Nat.add]. rewrite H1.
  cbn [toString16_digits]. rewrite H2.
  cbn [toString16_digits]. rewrite H3.
  cbn [toString16_digits]. rewrite H4, H5.
  cbn [substring_1].
  rewrite !N.Div0.div_div. reflexivity.
Qed.

Lemma digit_of_low_bits (n k d : N) :
  (d * (16 * k) = 65536)%N → d ≠ 0%N →
  ((n / d) mod 16 = ((n mod 65536) / d) mod 16)%N.
Proof.
  intros Hd Hd0.
  rewrite (N.div_mod n 65536) at 1 by lia.
  rewrite <- Hd at 1.
  replace (d * (16 * k) * (n / 65536) + n mod 65536)%N
    with (n mod 65536 + (16 * k * (n / 65536)) * d)%N by lia.
  rewrite N.div_add by done.
  replace (n mod 65536 / d + 16 * k * (n / 65536))%N
    with (n mod 65536 / d + (k * (n / 65536)) * 16)%N by lia.
  by rewrite N.Div0.mod_add.
Qed.

(** X1.  For every value the floored draw can take, the client key is
    exactly four lowercase hexadecimal digits: the numeral, padded with
    zeros, of the draw's low sixteen bits. *)
Theorem getRandomClientKey_four_hex_digits (floored : N) :
  (65536 ≤ floored ≤ 131072)%N →
  let low := (floored mod 65536)%N in
  String.length (getRandomClientKey floored) = 4 ∧
  Forall (λ c, is_hex_char c = true) (String.list_ascii_of_string (getRandomClientKey floored)) ∧
  getRandomClientKey floored
  = String (hex_digit ((low / 4096) mod 16))
      (String (hex_digit ((low / 256) mod 16))
         (String (hex_digit ((low / 16) mod 16))
            (String (hex_digit (low mod 16)) ""))).
Proof.
  intros Hn low. rewrite (getRandomClientKey_digits floored Hn).
  split; [reflexivity|]. split.
  - cbn [String.list_ascii_of_string]. repeat constructor; apply hex_digit_is_hex.
  - subst low.
    rewrite <- (digit_of_low_bits floored 1 4096) by done.
    rewrite <- (digit_of_low_bits floored 16 256) by done.
    rewrite <- (digit_of_low_bits floored 256 16) by done.
    replace ((floored mod 65536) mod 16)%N with (floored mod 16)%N; [done|].
    pose proof (digit_of_low_bits floored 4096 1 eq_refl) as H.
    rewrite !N.div_1_r in H. by apply H.
Qed.

Lemma getRandomClientKey_four_hex_digits_witness :
  getRandomClientKey 72251 = "1a3b" ∧
  getRandomClientKey 65536 = "0000" ∧
  getRandomClientKey 131072 = "0000" ∧
  String.length (getRandomClientKey 72251) = 4.
Proof.
  split; [reflexivity|]. split; [reflexivity|]. split; [reflexivity|].
  apply (getRandomClientKey_four_hex_digits 72251). lia.
Defined.

(** ** The listener table and the emitter *)

Lemma well_formed_same_listeners w w' :
  OS w' = OS w → emitter w' = emitter w → next_sub w' = next_sub w →
  _listeners (client w') = _listeners (client w) →
  well_formed w → well_formed w'.
Proof.
  intros HO He Hn Hl [H1 H2 H3 H4 H5].
  split; unfold listenerInterface; rewrite ?HO, ?He, ?Hn, ?Hl; done.
Qed.

Lemma well_formed_emit_effect e w : well_formed w → well_formed (emit_effect e w).
Proof. by apply well_formed_same_listeners. Qed.

Lemma well_formed_call_callback cb e r w :
  well_formed w → well_formed (call_callback cb e r w).
Proof. destruct cb; [apply well_formed_emit_effect|done]. Qed.

Lemma well_formed_set_shell b w : well_formed w → well_formed (set_shell b w).
Proof. by apply well_formed_same_listeners. Qed.

Lemma well_formed_set_sftp b w : well_formed w → well_formed (set_sftp b w).
Proof. by apply well_formed_same_listeners. Qed.

Lemma well_formed_set_upload n w : well_formed w → well_formed (set_upload n w).
Proof. by apply well_formed_same_listeners. Qed.

Lemma well_formed_set_download n w : well_formed w → well_formed (set_download n w).
Proof. by apply well_formed_same_listeners. Qed.

Lemma well_formed_on n h w : well_formed w → well_formed (on n h w).
Proof. by apply well_formed_same_listeners. Qed.

Lemma well_formed_register eventName w :
  well_formed w → well_formed (registerNativeListener eventName w).
Proof.
  intros [H1 H2 H3 H4 H5].
  set (s := mkSub (next_sub w) (listenerInterface w) eventName).
  assert (Hs : s ∉ emitter w).
  { intros Hin%H1. simpl in Hin. lia. }
  split; simpl.
  - intros x [Hx| ->%list_elem_of_singleton]%elem_of_app.
    + apply H1 in Hx. lia.
    + simpl. lia.
  - apply NoDup_app. split; [done|]. split; [|apply NoDup_singleton].
    by intros x Hx ->%list_elem_of_singleton.
  - intros x [Hx| ->%list_elem_of_singleton]%elem_of_app; [by apply H3|done].
  - intros n x. destruct (decide (eventName = n)) as [->|Hne].
    + rewrite lookup_insert_eq. by intros [= <-].
    + rewrite lookup_insert_ne by done. apply H4.
  - intros n x. destruct (decide (eventName = n)) as [->|Hne].
    + rewrite lookup_insert_eq. intros [= <-].
      apply elem_of_app. right. by apply list_elem_of_singleton.
    + rewrite lookup_insert_ne by done. intros Hx.
      apply elem_of_app. left. by eapply H5.
Qed.

Lemma well_formed_unregister eventName w :
  well_formed w → well_formed (unregisterNativeListener eventName w).
Proof.
  intros [H1 H2 H3 H4 H5]. unfold unregisterNativeListener.
  destruct (_listeners (client w) !! eventName) as [l|] eqn:El; [|done].
  split; simpl.
  - intros x [_ Hx]%list_elem_of_filter. by apply H1.
  - by apply NoDup_filter.
  - intros x [_ Hx]%list_elem_of_filter. by apply H3.
  - intros n x [_ Hx]%lookup_delete_Some. by apply H4.
  - intros n x [Hne Hx]%lookup_delete_Some. apply list_elem_of_filter.
    split; [|by eapply H5].
    intros ->. apply Hne. rewrite <- (H4 _ _ El). by apply H4.
Qed.

Create HintDb wf discriminated.
#[local] Hint Resolve well_formed_emit_effect well_formed_call_callback
  well_formed_set_shell well_formed_set_sftp well_formed_set_upload
  well_formed_set_download well_formed_on well_formed_register
  well_formed_unregister : wf.

(** Case analysis on whatever the goal still branches on. *)
Ltac break_branches :=
  repeat (match goal with
          | |- context [if ?b then _ else _] => destruct b eqn:?
          | |- context [match ?x with _ => _ end] => destruct x eqn:?
          end; simpl).

Lemma well_formed_closeShell w : well_formed w → well_formed (closeShell w).
Proof. unfold closeShell, native. auto with wf. Qed.

Lemma well_formed_disconnectSFTP w : well_formed w → well_formed (disconnectSFTP w).
Proof.
  unfold disconnectSFTP, native. destruct (negb _); auto 6 with wf.
Qed.

Lemma well_formed_disconnect w : well_formed w → well_formed (disconnect w).
Proof.
  intros H. unfold disconnect, native. apply well_formed_emit_effect.
  assert (H1 : well_formed (if shellActive w then closeShell w else w))
    by (destruct (shellActive w); auto using well_formed_closeShell).
  destruct (sftpActive _); auto using well_formed_disconnectSFTP.
Qed.

Lemma well_formed_fresh_world os key host port username :
  well_formed (fresh_world os key host port username).
Proof.
  split; simpl; try (by intros ? ?%elem_of_nil); try apply NoDup_nil_2.
  - intros n s. by rewrite lookup_empty.
  - intros n s. by rewrite lookup_empty.
Qed.

Section Runs.

Variable JSON_parse : jsstring → option LsResult.

Lemma well_formed_run_op op w :
  well_formed w → well_formed (run_op JSON_parse op w).
Proof.
  intros H. destruct op; simpl;
    unfold execute_start, execute_done, sftpRename_start, sftpMkdir_start,
      sftpRm_start, sftpRmdir_start, sftpChmod_start, file_operation_done,
      checkShell, startShell, startShell_done, checkShell_catch,
      writeToShell_start, writeToShell_done, checkSFTP, connectSFTP,
      connectSFTP_done, checkSFTP_catch, sftpLs_start, sftpLs_done,
      sftpLs_settle, sftpUpload_start, sftpUploadWithCustomName_start,
      sftpUploadBase64_start, upload_done, sftpDownload_start,
      sftpDownload_done, sftpCancelUpload, sftpCancelDownload, native;
    break_branches;
    auto 8 using well_formed_closeShell, well_formed_disconnectSFTP,
      well_formed_disconnect with wf.
Qed.

(** X2.  In every state a client can reach from its constructor, by
    any sequence of method calls and completion callbacks, every entry of
    the listener table is a live subscription, made for the event name it
    is stored under, on the platform's emitter; and no subscription is in
    the emitter twice. *)
Theorem listener_table_entries_are_live
    (os : string) (floored : N) (host : string) (port : Z) (username : string)
    (passwordOrKey : PasswordOrKey) (ops : list Op) :
  let w := run_ops JSON_parse ops
             (constructor os floored host port username passwordOrKey).1 in
  well_formed w ∧
  ∀ eventName s, _listeners (client w) !! eventName = Some s →
    s ∈ active_subscriptions eventName w ∧ sub_emitter s = listenerInterface w.
Proof.
  intros w.
  assert (Hwf : well_formed w).
  { subst w. unfold run_ops.
    generalize (well_formed_fresh_world os (getRandomClientKey floored) host port username).
    change (constructor os floored host port username passwordOrKey).1
      with (fresh_world os (getRandomClientKey floored) host port username).
    generalize (fresh_world os (getRandomClientKey floored) host port username).
    induction ops as [|op ops IH]; intros w0 H0; [done|].
    simpl. apply IH. by apply well_formed_run_op. }
  split; [done|]. intros n s Hs. destruct Hwf as [H1 H2 H3 H4 H5].
  split; [|by eauto].
  apply list_elem_of_filter. split; [by eapply H4|by eapply H5].
Qed.

End Runs.

(** ** Identity *)

Lemma same_identity_refl w :
  (∀ c, Native c ∈ effects w → call_key c = this_key w) → same_identity w w.
Proof. by split. Qed.

Lemma same_identity_quiet w0 w w' :
  OS w' = OS w → this_key w' = this_key w →
  host (client w') = host (client w) → port (client w') = port (client w) →
  username (client w') = username (client w) → effects w' = effects w →
  same_identity w0 w → same_identity w0 w'.
Proof.
  intros HO Hk Hh Hp Hu He [H1 H2 H3 H4 H5 H6].
  split; rewrite ?HO, ?Hk, ?Hh, ?Hp, ?Hu, ?He; done.
Qed.

Lemma same_identity_native w0 c w :
  call_key c = this_key w → same_identity w0 w → same_identity w0 (native c w).
Proof.
  intros Hc [H1 H2 H3 H4 H5 H6]. split; try done. simpl.
  intros c' [Hin|Hin%list_elem_of_singleton]%elem_of_app; [by apply H6|].
  injection Hin as ->. by rewrite Hc.
Qed.

Lemma same_identity_call_callback w0 cb e r w :
  same_identity w0 w → same_identity w0 (call_callback cb e r w).
Proof.
  intros [H1 H2 H3 H4 H5 H6]. destruct cb; [|done]. split; try done. simpl.
  intros c' [Hin|Hin%list_elem_of_singleton]%elem_of_app; [by apply H6|done].
Qed.

Lemma same_identity_set_shell w0 b w :
  same_identity w0 w → same_identity w0 (set_shell b w).
Proof. by apply same_identity_quiet. Qed.

Lemma same_identity_set_sftp w0 b w :
  same_identity w0 w → same_identity w0 (set_sftp b w).
Proof. by apply same_identity_quiet. Qed.

Lemma same_identity_set_upload w0 n w :
  same_identity w0 w → same_identity w0 (set_upload n w).
Proof. by apply same_identity_quiet. Qed.

Lemma same_identity_set_download w0 n w :
  same_identity w0 w → same_identity w0 (set_download n w).
Proof. by apply same_identity_quiet. Qed.

Lemma same_identity_on w0 n h w :
  same_identity w0 w → same_identity w0 (on n h w).
Proof. by apply same_identity_quiet. Qed.

Lemma same_identity_register w0 n w :
  same_identity w0 w → same_identity w0 (registerNativeListener n w).
Proof. by apply same_identity_quiet. Qed.

Lemma same_identity_unregister w0 n w :
  same_identity w0 w → same_identity w0 (unregisterNativeListener n w).
Proof.
  unfold unregisterNativeListener. destruct (_ !! _); [|done].
  by apply same_identity_quiet.
Qed.

Create HintDb identity discriminated.
#[local] Hint Resolve same_identity_call_callback same_identity_set_shell
  same_identity_set_sftp same_identity_set_upload same_identity_set_download
  same_identity_on same_identity_register same_identity_unregister : identity.
#[local] Hint Extern 1 (same_identity _ (native _ _)) =>
  apply same_identity_native; [reflexivity|] : identity.

Lemma same_identity_closeShell w0 w :
  same_identity w0 w → same_identity w0 (closeShell w).
Proof. unfold closeShell. auto with identity. Qed.

Lemma same_identity_disconnectSFTP w0 w :
  same_identity w0 w → same_identity w0 (disconnectSFTP w).
Proof. unfold disconnectSFTP. destruct (negb _); auto 6 with identity. Qed.

Lemma same_identity_disconnect w0 w :
  same_identity w0 w → same_identity w0 (disconnect w).
Proof.
  intros H. unfold disconnect.
  assert (H1 : same_identity w0 (if shellActive w then closeShell w else w))
    by (destruct (shellActive w); auto using same_identity_closeShell).
  assert (H2 : same_identity w0
                 (if sftpActive (if shellActive w then closeShell w else w)
                  then disconnectSFTP (if shellActive w then closeShell w else w)
                  else (if shellActive w then closeShell w else w)))
    by (destruct (sftpActive _); auto using same_identity_disconnectSFTP).
  auto with identity.
Qed.

Section Identity.

Variable JSON_parse : jsstring → option LsResult.

Lemma same_identity_run_op w0 op w :
  same_identity w0 w → same_identity w0 (run_op JSON_parse op w).
Proof.
  intros H. destruct op; simpl;
    unfold execute_start, execute_done, sftpRename_start, sftpMkdir_start,
      sftpRm_start, sftpRmdir_start, sftpChmod_start, file_operation_done,
      checkShell, startShell, startShell_done, checkShell_catch,
      writeToShell_start, writeToShell_done, checkSFTP, connectSFTP,
      connectSFTP_done, checkSFTP_catch, sftpLs_start, sftpLs_done,
      sftpLs_settle, sftpUpload_start, sftpUploadWithCustomName_start,
      sftpUploadBase64_start, upload_done, sftpDownload_start,
      sftpDownload_done, sftpCancelUpload, sftpCancelDownload;
    break_branches;
    auto 8 using same_identity_closeShell, same_identity_disconnectSFTP,
      same_identity_disconnect with identity.
Qed.

Lemma same_identity_run_ops w0 ops w :
  same_identity w0 w → same_identity w0 (run_ops JSON_parse ops w).
Proof.
  unfold run_ops. revert w. induction ops as [|op ops IH]; intros w H; [done|].
  simpl. apply IH. by apply same_identity_run_op.
Qed.

(** X3.  The key the constructor hands to the native connect is the key
    of the client from then on: whatever methods and completion callbacks
    run, in whatever order, the client's key, host, port and user name and
    the platform stay what they were, and every request the client's
    methods make of [RNSSHClient] carries that key. *)
Theorem client_identity_is_permanent
    (os : string) (floored : N) (h : string) (p : Z) (u : string)
    (passwordOrKey : PasswordOrKey) (ops : list Op) :
  let born := constructor os floored h p u passwordOrKey in
  let w := run_ops JSON_parse ops born.1 in
  this_key w = connect_key born.2 ∧
  this_key w = getRandomClientKey floored ∧
  (host (client w), port (client w), username (client w), OS w) = (h, p, u, os) ∧
  ∀ c, Native c ∈ effects w → call_key c = connect_key born.2.
Proof.
  intros born w.
  assert (Hk : connect_key born.2 = getRandomClientKey floored).
  { subst born. unfold constructor, connect. simpl.
    destruct (String.eqb os "android"); [destruct passwordOrKey|]; done. }
  assert (H : same_identity born.1 w).
  { apply same_identity_run_ops, same_identity_refl.
    by intros c ?%elem_of_nil. }
  destruct H as [H1 H2 H3 H4 H5 H6]. rewrite Hk.
  split; [exact H2|]. split; [exact H2|]. split; [|exact H6].
  by rewrite H1, H3, H4, H5.
Qed.

End Identity.

(** ** Session flags *)

Lemma disconnect_flags w :
  shellActive (disconnect w) = false ∧
  sftpActive (disconnect w) = sftpActive w && String.eqb (OS w) "ios".
Proof.
  destruct (disconnect_shell_step w) as (_ & _ & O1 & S1 & F1).
  destruct (disconnect_sftp_step (if shellActive w then closeShell w else w))
    as (_ & _ & S2 & F2).
  split.
  - change (shellActive (disconnect w))
      with (shellActive (if sftpActive (if shellActive w then closeShell w else w)
                         then disconnectSFTP (if shellActive w then closeShell w else w)
                         else (if shellActive w then closeShell w else w))).
    by rewrite S2.
  - change (sftpActive (disconnect w))
      with (sftpActive (if sftpActive (if shellActive w then closeShell w else w)
                        then disconnectSFTP (if shellActive w then closeShell w else w)
                        else (if shellActive w then closeShell w else w))).
    by rewrite F2, F1, O1.
Qed.

Lemma disconnectSFTP_flags w :
  shellActive (disconnectSFTP w) = shellActive w ∧
  sftpActive (disconnectSFTP w) = sftpActive w && String.eqb (OS w) "ios".
Proof.
  destruct (String.eqb (OS w) "ios") eqn:Hos.
  - rewrite disconnectSFTP_ios by (by apply String.eqb_eq).
    by rewrite andb_true_r.
  - destruct (disconnectSFTP_spec w) as (_ & _ & F & S); [by apply String.eqb_neq|].
    by rewrite F, S, andb_false_r.
Qed.

Section Flags.

Variable JSON_parse : jsstring → option LsResult.

(** X4.  The session flags move only where the source moves them.  The
    shell flag goes up only in the completion callback of a shell start
    that reported no error, and down only in [closeShell] and
    [disconnect].  The SFTP flag goes up only in the completion callback of
    an SFTP connect, whatever it reported, and down only in
    [disconnectSFTP] and [disconnect], and never on iOS. *)
Theorem flags_move_only_where_the_source_moves_them (op : Op) (w : World) :
  let w' := run_op JSON_parse op w in
  (shellActive w = false → shellActive w' = true →
   ∃ callback response, op = Op_startShell_done callback None response) ∧
  (shellActive w = true → shellActive w' = false →
   op = Op_closeShell ∨ op = Op_disconnect) ∧
  (sftpActive w = false → sftpActive w' = true →
   ∃ callback error, op = Op_connectSFTP_done callback error) ∧
  (sftpActive w = true → sftpActive w' = false →
   (op = Op_disconnectSFTP ∨ op = Op_disconnect) ∧ OS w ≠ "ios").
Proof.
  intros w'. subst w'.
  destruct op; simpl;
    try (destruct (closeShell_spec w) as (_ & _ & _ & -> & ->));
    try (destruct (disconnectSFTP_flags w) as [-> ->]);
    try (destruct (disconnect_flags w) as [-> ->]);
    unfold execute_start, execute_done, sftpRename_start, sftpMkdir_start,
      sftpRm_start, sftpRmdir_start, sftpChmod_start, file_operation_done,
      checkShell, startShell, startShell_done, checkShell_catch,
      writeToShell_start, writeToShell_done, checkSFTP, connectSFTP,
      connectSFTP_done, checkSFTP_catch, sftpLs_start, sftpLs_done,
      sftpLs_settle, sftpUpload_start, sftpUploadWithCustomName_start,
      sftpUploadBase64_start, upload_done, sftpDownload_start,
      sftpDownload_done, sftpCancelUpload, sftpCancelDownload,
      shellActive, sftpActive;
    break_branches; rewrite ?call_callback_client; simpl;
    repeat split; intros; try congruence; eauto;
    try (destruct (sftp (_activeStream (client w))); simpl in *; congruence);
    try (destruct (sftp (_activeStream (client w))),
           (String.eqb (OS w) "ios") eqn:Hos; simpl in *; try congruence;
         by apply String.eqb_neq).
Qed.

End Flags.

(** ** Handlers and delivery *)

Section Delivery.

Variable invoke : EventHandler → string → World → Outcome.
Variable builtin : string → string → World → Outcome.
Variable through_function : EventHandler → string → Lookup.


End Delivery.


(** ** Registering and unregistering *)

Lemma filter_all_true {A} (P : A → Prop) `{!∀ x, Decision (P x)} (l : list A) :
  (∀ x, x ∈ l → P x) → filter P l = l.
Proof.
  induction l as [|a l IH]; intros Hall; [done|].
  rewrite filter_cons_True by (apply Hall; left).
  f_equal. apply IH. intros x Hx. apply Hall. by right.
Qed.

Lemma filter_remove_one {A} `{!EqDecision A} (s : A) (l : list A) :
  NoDup l → s ∈ l → S (length (filter (λ x, x ≠ s) l)) = length l.
Proof.
  induction 1 as [|a l Ha Hl IH]; intros Hs; [by apply elem_of_nil in Hs|].
  destruct (decide (a = s)) as [->|Hne].
  - rewrite filter_cons_False by (by intros ?). simpl. f_equal.
    f_equal. apply filter_all_true. by intros x Hx ->.
  - rewrite filter_cons_True by done. simpl. f_equal. apply IH.
    apply elem_of_cons in Hs as [->|?]; done.
Qed.

(** X7.  Unregistering what was just registered undoes it: in a
    well-formed state, for a name not in the listener table, the emitter
    and the table are back to what they were, and nothing was sent. *)
Theorem register_then_unregister (eventName : string) (w : World) :
  well_formed w → _listeners (client w) !! eventName = None →
  let w' := unregisterNativeListener eventName (registerNativeListener eventName w) in
  emitter w' = emitter w ∧
  _listeners (client w') = _listeners (client w) ∧
  effects w' = effects w ∧
  _activeStream (client w') = _activeStream (client w).
Proof.
  intros [H1 _ _ _ _] Hn w'. subst w'.
  unfold unregisterNativeListener. simpl. rewrite lookup_insert_eq. simpl.
  split; [|split; [|done]].
  - rewrite filter_app, filter_cons_False, filter_nil, app_nil_r by (by intros ?).
    apply filter_all_true. intros x Hx ->. apply H1 in Hx. simpl in Hx. lia.
  - rewrite delete_insert_eq. by apply delete_id.
Qed.

Lemma register_then_unregister_witness :
  let w := sftp_open_on_android in
  emitter (unregisterNativeListener "Shell" (registerNativeListener "Shell" w))
  = emitter w.
Proof.
  assert (Hwf : well_formed sftp_open_on_android).
  { unfold sftp_open_on_android, connectSFTP_done, connectSFTP. simpl.
    apply well_formed_register, well_formed_register, well_formed_set_sftp,
      well_formed_emit_effect, well_formed_fresh_world. }
  apply (register_then_unregister "Shell" sftp_open_on_android Hwf). reflexivity.
Defined.

(** X8.  [unregisterNativeListener] removes the one subscription the
    listener table holds for the name, and only that one; with no entry in
    the table it changes nothing, so a subscription whose handle was
    overwritten in the table stays live. *)
Theorem unregister_removes_exactly_the_table_entry (eventName : string) (w : World) :
  well_formed w →
  let w' := unregisterNativeListener eventName w in
  (∀ s, _listeners (client w) !! eventName = Some s →
        S (length (emitter w')) = length (emitter w) ∧
        (s ∉ emitter w') ∧
        (∀ x, x ≠ s → x ∈ emitter w → x ∈ emitter w') ∧
        _listeners (client w') = delete eventName (_listeners (client w))) ∧
  (_listeners (client w) !! eventName = None → w' = w) ∧
  unregisterNativeListener eventName w' = w'.
Proof.
  intros [H1 H2 H3 H4 H5] w'. subst w'. split; [|split].
  - intros s Hs. unfold unregisterNativeListener. rewrite Hs. simpl.
    split; [apply filter_remove_one; eauto|]. split.
    + by intros [? _]%list_elem_of_filter.
    + split; [|done]. intros x Hx Hin. by apply list_elem_of_filter.
  - intros Hn. unfold unregisterNativeListener. by rewrite Hn.
  - unfold unregisterNativeListener at 1. by rewrite unregister_lookup.
Qed.

Lemma unregister_removes_exactly_the_table_entry_witness :
  length (emitter (unregisterNativeListener "Shell" shell_started_twice)) = 1 ∧
  active_subscriptions "Shell" (unregisterNativeListener "Shell" shell_started_twice)
  = [mkSub 0 DeviceEventEmitter "Shell"].
Proof.
  assert (Hwf : well_formed shell_started_twice).
  { unfold shell_started_twice, startShell, startShell_done. simpl.
    apply well_formed_emit_effect, well_formed_register, well_formed_emit_effect,
      well_formed_register, well_formed_fresh_world. }
  destruct (unregister_removes_exactly_the_table_entry "Shell" shell_started_twice Hwf)
    as (H & _ & _).
  destruct (H (mkSub 1 DeviceEventEmitter "Shell") eq_refl) as (Hl & _).
  split; [|reflexivity]. simpl in Hl. lia.
Defined.

(** ** Shell lifecycle *)

Lemma startShell_closed ptyType w :
  shellActive w = false →
  startShell ptyType w
  = (Pending, native (N_startShell (this_key w) ptyType)
                (registerNativeListener NATIVE_EVENT_SHELL w)).
Proof. intros H. unfold startShell. by rewrite H. Qed.

Lemma startShell_closed_step ptyType w :
  shellActive w = false →
  shellActive (startShell ptyType w).2 = false ∧
  this_key (startShell ptyType w).2 = this_key w ∧
  effects (startShell ptyType w).2
  = effects w ++ [Native (N_startShell (this_key w) ptyType)] ∧
  active_subscriptions NATIVE_EVENT_SHELL (startShell ptyType w).2
  = active_subscriptions NATIVE_EVENT_SHELL w
    ++ [mkSub (next_sub w) (listenerInterface w) NATIVE_EVENT_SHELL].
Proof.
  intros H. rewrite startShell_closed by done.
  split; [exact H|]. split; [done|]. split; [done|].
  unfold active_subscriptions. simpl.
  rewrite filter_app. f_equal.
Qed.

(** X9.  Nothing marks a shell start as pending: every [startShell]
    made while the flag is still false, for instance before the first
    one's completion callback has run, sends its own native request and
    adds its own [Shell] subscription. *)
Theorem pending_starts_pile_up (ptyType : PtyType) (n : nat) (w : World) :
  shellActive w = false →
  let w' := Nat.iter n (λ w, (startShell ptyType w).2) w in
  shellActive w' = false ∧
  new_effects w w' = replicate n (Native (N_startShell (this_key w) ptyType)) ∧
  length (active_subscriptions NATIVE_EVENT_SHELL w')
  = length (active_subscriptions NATIVE_EVENT_SHELL w) + n.
Proof.
  intros Hs w'. subst w'.
  assert (H : shellActive (Nat.iter n (λ w, (startShell ptyType w).2) w) = false ∧
              this_key (Nat.iter n (λ w, (startShell ptyType w).2) w) = this_key w ∧
              effects (Nat.iter n (λ w, (startShell ptyType w).2) w)
              = effects w ++ replicate n (Native (N_startShell (this_key w) ptyType)) ∧
              length (active_subscriptions NATIVE_EVENT_SHELL
                        (Nat.iter n (λ w, (startShell ptyType w).2) w))
              = length (active_subscriptions NATIVE_EVENT_SHELL w) + n).
  { induction n as [|n (IH1 & IH2 & IH3 & IH4)].
    - simpl. by rewrite app_nil_r, Nat.add_0_r.
    - rewrite Nat.iter_succ. set (v := Nat.iter n _ w) in *. cbv beta.
      destruct (startShell_closed_step ptyType v IH1) as (S1 & S2 & S3 & S4).
      split; [exact S1|]. split; [by rewrite S2|]. split.
      + rewrite S3, IH3, IH2, <- app_assoc. f_equal.
        change (replicate n (Native (N_startShell (this_key w) ptyType))
                ++ replicate 1 (Native (N_startShell (this_key w) ptyType))
                = replicate (S n) (Native (N_startShell (this_key w) ptyType))).
        rewrite <- replicate_add. f_equal. lia.
      + rewrite S4, length_app, IH4. simpl. lia. }
  destruct H as (H1 & _ & H3 & H4). split; [done|]. split; [|done].
  by apply new_effects_app.
Qed.

Lemma pending_starts_pile_up_witness :
  let w := fresh_world "android" "1a2b" "example.org" 22 "root" in
  length (active_subscriptions NATIVE_EVENT_SHELL
            (Nat.iter 3 (λ w, (startShell XTERM w).2) w)) = 3.
Proof.
  apply (pending_starts_pile_up XTERM 3
           (fresh_world "android" "1a2b" "example.org" 22 "root") eq_refl).
Defined.

(** X10.  A shell that started successfully and is then closed leaves
    no subscription behind: the emitter is what it was before the start,
    the [Shell] entry is gone from the listener table, the flag is false,
    and the native module has seen the start and then the close. *)
Theorem started_then_closed_leaves_no_subscription
    (ptyType : PtyType) (callback : option CallbackFunction)
    (response : string) (w : World) :
  well_formed w → shellActive w = false →
  let started := (startShell_done callback None response (startShell ptyType w).2).2 in
  let closed := closeShell started in
  shellActive started = true ∧
  emitter closed = emitter w ∧
  _listeners (client closed) = delete NATIVE_EVENT_SHELL (_listeners (client w)) ∧
  shellActive closed = false ∧
  native_calls (new_effects w closed)
  = [N_startShell (this_key w) ptyType; N_closeShell (this_key w)].
Proof.
  intros [H1 _ _ _ _] Hs started closed. subst closed started.
  rewrite startShell_closed by done.
  unfold startShell_done, closeShell, unregisterNativeListener. simpl.
  rewrite !call_callback_client. simpl. rewrite lookup_insert_eq. simpl.
  rewrite !call_callback_client, !call_callback_emitter. simpl.
  split; [done|]. split; [|split; [|split; [done|]]].
  - rewrite filter_app, filter_cons_False, filter_nil, app_nil_r by (by intros ?).
    apply filter_all_true. intros x Hx ->. apply H1 in Hx. simpl in Hx. lia.
  - by rewrite delete_insert_eq.
  - unfold new_effects. destruct callback; simpl.
    + rewrite <- !app_assoc, drop_app_length. reflexivity.
    + rewrite <- !app_assoc, drop_app_length. reflexivity.
Qed.

Lemma started_then_closed_leaves_no_subscription_witness :
  let w := fresh_world "android" "1a2b" "example.org" 22 "root" in
  emitter (closeShell (startShell_done (Some 4) None "Welcome"
                         (startShell VT100 w).2).2) = [].
Proof.
  apply (started_then_closed_leaves_no_subscription VT100 (Some 4) "Welcome"
           (fresh_world "android" "1a2b" "example.org" 22 "root")
           (well_formed_fresh_world _ _ _ _ _) eq_refl).
Defined.

(** X11.  [closeShell] is not guarded by the flag: open or not, it
    sends the native close and leaves the flag false, and the next
    [startShell] always sends a new native start. *)
Theorem closeShell_always_closes_and_allows_restart (ptyType : PtyType) (w : World) :
  new_effects w (closeShell w) = [Native (N_closeShell (this_key w))] ∧
  shellActive (closeShell w) = false ∧
  sftpActive (closeShell w) = sftpActive w ∧
  _listeners (client (closeShell w)) !! NATIVE_EVENT_SHELL = None ∧
  (startShell ptyType (closeShell w)).1 = Pending ∧
  new_effects (closeShell w) (startShell ptyType (closeShell w)).2
  = [Native (N_startShell (this_key w) ptyType)].
Proof.
  destruct (closeShell_spec w) as (E & K & _ & S & F).
  split; [by apply new_effects_app|]. split; [done|]. split; [done|]. split.
  - unfold closeShell. simpl. apply unregister_lookup.
  - rewrite startShell_closed by done. split; [done|].
    apply new_effects_app. simpl. by rewrite K.
Qed.

(** ** Disconnecting *)

Lemma disconnectSFTP_listeners_ne eventName w :
  eventName ≠ NATIVE_EVENT_DOWNLOAD_PROGRESS →
  eventName ≠ NATIVE_EVENT_UPLOAD_PROGRESS →
  _listeners (client (disconnectSFTP w)) !! eventName
  = _listeners (client w) !! eventName.
Proof.
  intros Hd Hu. unfold disconnectSFTP. destruct (negb _); [|done]. simpl.
  by rewrite !unregister_lookup_ne.
Qed.

(** X12.  [disconnect] tears down by the flags, not by the listener
    table: with the shell flag false it leaves the table's [Shell] entry
    where it is, so the subscription that a failed shell start left behind
    outlives the disconnect.  A second [disconnect] finds the shell flag
    false and sends no shell close again. *)
Theorem disconnect_keeps_listener_of_failed_start (w : World) :
  (shellActive w = false →
   _listeners (client (disconnect w)) !! NATIVE_EVENT_SHELL
   = _listeners (client w) !! NATIVE_EVENT_SHELL) ∧
  (shellActive w = true →
   _listeners (client (disconnect w)) !! NATIVE_EVENT_SHELL = None) ∧
  (∀ k, Native (N_closeShell k) ∉ new_effects (disconnect w) (disconnect (disconnect w))).
Proof.
  split; [|split].
  - intros Hs. unfold disconnect. rewrite Hs. simpl.
    destruct (sftpActive w); [|done]. by apply disconnectSFTP_listeners_ne.
  - intros Hs. unfold disconnect. rewrite Hs. simpl.
    assert (Hc : _listeners (client (closeShell w)) !! NATIVE_EVENT_SHELL = None)
      by (unfold closeShell; simpl; apply unregister_lookup).
    destruct (sftpActive (closeShell w)); [|done].
    by rewrite disconnectSFTP_listeners_ne.
  - intros k. destruct (disconnect_flags w) as [Hs _].
    set (v := disconnect w) in *.
    destruct (disconnect_shell_step v) as (E1 & K1 & _).
    destruct (disconnect_sftp_step (if shellActive v then closeShell v else v))
      as (E2 & K2 & _).
    assert (E : effects (disconnect v)
                = effects v
                  ++ (if sftpActive v && negb (String.eqb (OS v) "ios")
                      then [Native (N_disconnectSFTP (this_key v))] else [])
                  ++ [Native (N_disconnect (this_key v))]).
    { change (effects (disconnect v))
        with (effects (if sftpActive (if shellActive v then closeShell v else v)
                       then disconnectSFTP (if shellActive v then closeShell v else v)
                       else (if shellActive v then closeShell v else v))
              ++ [Native (N_disconnect
                            (this_key (if sftpActive (if shellActive v then closeShell v else v)
                                       then disconnectSFTP (if shellActive v then closeShell v else v)
                                       else (if shellActive v then closeShell v else v))))]).
      rewrite E2, K2, E1, K1. rewrite Hs. simpl. rewrite app_nil_r.
      by rewrite <- app_assoc. }
    rewrite (new_effects_app _ _ _ E).
    destruct (sftpActive v && negb (String.eqb (OS v) "ios")); simpl;
      intros Hin; repeat (apply elem_of_cons in Hin as [Hin|Hin]; [discriminate|]);
      by apply elem_of_nil in Hin.
Qed.

(** A client whose first shell start failed. *)
Lemma disconnect_keeps_listener_of_failed_start_witness :
  let w := fresh_world "android" "1a2b" "example.org" 22 "root" in
  let failed := (startShell_done None (Some "no pty") "" (startShell VANILLA w).2).2 in
  shellActive failed = false ∧
  _listeners (client (disconnect failed)) !! NATIVE_EVENT_SHELL
  = Some (mkSub 0 DeviceEventEmitter "Shell") ∧
  emitter (disconnect failed) = [mkSub 0 DeviceEventEmitter "Shell"].
Proof.
  split; [reflexivity|]. split; [|reflexivity].
  rewrite (proj1 (disconnect_keeps_listener_of_failed_start _)) by reflexivity.
  reflexivity.
Defined.

(** ** Writing to the shell *)

Lemma native_calls_app l1 l2 : native_calls (l1 ++ l2) = native_calls l1 ++ native_calls l2.
Proof. unfold native_calls. apply omap_app. Qed.

Lemma call_callback_effects cb e r w :
  effects (call_callback cb e r w)
  = effects w ++ match cb with Some f => [UserCallback f e r] | None => [] end.
Proof. destruct cb; simpl; [done|by rewrite app_nil_r]. Qed.

Lemma native_calls_native c l : native_calls (Native c :: l) = c :: native_calls l.
Proof. reflexivity. Qed.

Lemma native_calls_callback cb e r :
  native_calls match cb with Some f => [UserCallback f e r] | None => [] end = [].
Proof. by destruct cb. Qed.

(** The write itself: the executor and its completion callback. *)
Lemma writeToShell_body command callback (write_answer : option Error * string) w :
  let r := writeToShell_done callback write_answer.1 write_answer.2
             (writeToShell_start command w) in
  effects r.2
  = effects w
    ++ Native (N_writeToShell command (this_key w))
       :: match callback with
          | Some f => [UserCallback f write_answer.1 (RString write_answer.2)]
          | None => []
          end ∧
  shellActive r.2 = shellActive w ∧
  r.1 = match write_answer.1 with
        | Some e => Reject e
        | None => Resolve write_answer.2
        end.
Proof.
  intros r. subst r. unfold writeToShell_done, writeToShell_start, shellActive.
  destruct write_answer as [[e|] resp]; simpl;
    rewrite call_callback_client; (split; [|done]);
    rewrite call_callback_effects; simpl;
    by rewrite <- app_assoc.
Qed.

(** X13.  [writeToShell] opens the shell itself when it has to.  With
    the shell open it sends the write and nothing else.  With the shell
    closed it first sends a start with the plain terminal type, and, when
    that start succeeds, the write; the shell is open afterwards.  Either
    way the promise settles by the answer to the write alone: the banner
    of the implicit start is dropped. *)
Theorem writeToShell_opens_the_shell_first
    (command : string) (callback : option CallbackFunction)
    (banner : string) (write_answer : option Error * string) (w : World) :
  let r := writeToShell command callback (None, banner) write_answer w in
  native_calls (new_effects w r.2)
  = (if shellActive w then [] else [N_startShell (this_key w) VANILLA])
    ++ [N_writeToShell command (this_key w)] ∧
  shellActive r.2 = true ∧
  r.1 = match write_answer.1 with
        | Some e => Reject e
        | None => Resolve write_answer.2
        end.
Proof.
  intros r. subst r. unfold writeToShell, checkShell.
  destruct (shellActive w) eqn:Hs.
  - destruct (writeToShell_body command callback write_answer w) as (B1 & B2 & B3).
    cbn [fst snd]. rewrite B2, Hs. split; [|done].
    rewrite (new_effects_app _ _ _ B1), native_calls_native.
    by rewrite native_calls_callback.
  - rewrite startShell_closed by done.
    unfold startShell_done, call_callback. cbn [fst snd].
    set (v := set_shell true _).
    destruct (writeToShell_body command callback write_answer v) as (B1 & B2 & B3).
    rewrite B2. split; [|done].
    change (effects v) with (effects w ++ [Native (N_startShell (this_key w) VANILLA)]) in B1.
    rewrite <- app_assoc in B1.
    rewrite (new_effects_app _ _ _ B1).
    change ([Native (N_startShell (this_key w) VANILLA)] ++ ?l)
      with (Native (N_startShell (this_key w) VANILLA) :: l).
    rewrite !native_calls_native. change (this_key v) with (this_key w).
    by rewrite native_calls_callback.
Qed.

(** X14.  When the implicit shell start of [writeToShell] fails, the
    write is never sent: the only request is the start, the user callback
    is called once, with the start's error and no response, the promise is
    rejected with that error, the flag stays false, and the [Shell]
    subscription made for the start stays in the listener table. *)
Theorem writeToShell_start_failure_sends_no_write
    (command : string) (callback : option CallbackFunction)
    (e : Error) (response : string) (write_answer : option Error * string)
    (w : World) :
  shellActive w = false →
  let r := writeToShell command callback (Some e, response) write_answer w in
  r.1 = Reject e ∧
  new_effects w r.2
  = Native (N_startShell (this_key w) VANILLA)
    :: match callback with
       | Some f => [UserCallback f (Some e) RUndefined]
       | None => []
       end ∧
  shellActive r.2 = false ∧
  is_Some (_listeners (client r.2) !! NATIVE_EVENT_SHELL).
Proof.
  intros Hs r. subst r. unfold writeToShell, checkShell. rewrite Hs.
  rewrite startShell_closed by done.
  unfold startShell_done, checkShell_catch. simpl.
  split; [done|]. split; [|split].
  - unfold new_effects. rewrite call_callback_effects. simpl.
    by rewrite <- app_assoc, drop_app_length.
  - unfold shellActive in *. by rewrite call_callback_client.
  - rewrite call_callback_client. simpl. rewrite lookup_insert_eq. by eexists.
Qed.

Lemma writeToShell_start_failure_sends_no_write_witness :
  let w := fresh_world "android" "1a2b" "example.org" 22 "root" in
  let r := writeToShell "ls" (Some 9) (Some "no pty", "") (None, "a b") w in
  r.1 = Reject "no pty" ∧
  effects r.2 = [Native (N_startShell "1a2b" VANILLA);
                 UserCallback 9 (Some "no pty") RUndefined].
Proof.
  destruct (writeToShell_start_failure_sends_no_write "ls" (Some 9) "no pty" ""
              (None, "a b") (fresh_world "android" "1a2b" "example.org" 22 "root")
              eq_refl) as (H1 & H2 & _).
  split; [exact H1 | exact H2].
Defined.

(** ** The implicit SFTP connect *)

Lemma connectSFTP_closed w :
  sftpActive w = false →
  connectSFTP w = (Pending, native (N_connectSFTP (this_key w)) w).
Proof. intros H. unfold connectSFTP. by rewrite H. Qed.

Lemma implicitly_connected_spec answer w :
  sftpActive w = false →
  sftpActive (implicitly_connected answer w) = true ∧
  this_key (implicitly_connected answer w) = this_key w ∧
  _counters (client (implicitly_connected answer w)) = _counters (client w) ∧
  effects (implicitly_connected answer w) = effects w ++ [Native (N_connectSFTP (this_key w))] ∧
  is_Some (_listeners (client (implicitly_connected answer w)) !! NATIVE_EVENT_DOWNLOAD_PROGRESS) ∧
  is_Some (_listeners (client (implicitly_connected answer w)) !! NATIVE_EVENT_UPLOAD_PROGRESS).
Proof.
  intros Hs. unfold implicitly_connected. rewrite connectSFTP_closed by done.
  unfold connectSFTP_done. destruct answer; simpl.
  all: split; [done|]; split; [done|]; split; [done|]; split; [done|]; split.
  all: try (rewrite lookup_insert_ne by discriminate).
  all: rewrite lookup_insert_eq; by eexists.
Qed.

Lemma sftp_connect_failure {A : Type} callback e
    (body : World → Completion A * World) w :
  sftpActive w = false →
  let r := after_checkSFTP callback (Some e) body w in
  r.1 = Reject e ∧
  new_effects w r.2
  = Native (N_connectSFTP (this_key w))
    :: match callback with
       | Some f => [UserCallback f (Some e) RUndefined]
       | None => []
       end ∧
  _counters (client r.2) = _counters (client w) ∧
  sftpActive r.2 = true ∧
  this_key r.2 = this_key w.
Proof.
  intros Hs r. subst r.
  unfold after_checkSFTP, checkSFTP. rewrite Hs.
  rewrite connectSFTP_closed by done.
  unfold connectSFTP_done, checkSFTP_catch. cbn [fst snd call_callback].
  unfold sftpActive, this_key. rewrite call_callback_client.
  split; [done|]. split; [|done].
  unfold new_effects. rewrite call_callback_effects. simpl.
  by rewrite <- app_assoc, drop_app_length.
Qed.

Lemma implicitly_connected_listeners answer w :
  sftpActive w = false →
  emitter (implicitly_connected answer w) = emitter w ++ progress_subscriptions w ∧
  _listeners (client (implicitly_connected answer w))
  = <[NATIVE_EVENT_UPLOAD_PROGRESS :=
        mkSub (S (next_sub w)) (listenerInterface w) NATIVE_EVENT_UPLOAD_PROGRESS]>
      (<[NATIVE_EVENT_DOWNLOAD_PROGRESS :=
           mkSub (next_sub w) (listenerInterface w) NATIVE_EVENT_DOWNLOAD_PROGRESS]>
         (_listeners (client w))).
Proof.
  intros Hs. unfold implicitly_connected. rewrite connectSFTP_closed by done.
  unfold connectSFTP_done, progress_subscriptions.
  destruct answer; simpl; by rewrite <- app_assoc.
Qed.

Lemma after_checkSFTP_open {A : Type} callback answer
    (body : World → Completion A * World) w :
  sftpActive w = true → after_checkSFTP callback answer body w = body w.
Proof. intros Hs. unfold after_checkSFTP, checkSFTP. by rewrite Hs. Qed.

Lemma after_checkSFTP_connected {A : Type} callback
    (body : World → Completion A * World) w :
  sftpActive w = false →
  after_checkSFTP callback None body w = body (implicitly_connected None w).
Proof.
  intros Hs. unfold after_checkSFTP, checkSFTP, implicitly_connected. rewrite Hs.
  by rewrite connectSFTP_closed.
Qed.

Lemma sftp_connect_failure_listeners {A : Type} callback e
    (body : World → Completion A * World) w :
  sftpActive w = false →
  emitter (after_checkSFTP callback (Some e) body w).2
  = emitter w ++ progress_subscriptions w.
Proof.
  intros Hs. unfold after_checkSFTP, checkSFTP. rewrite Hs.
  rewrite connectSFTP_closed by done.
  unfold connectSFTP_done, checkSFTP_catch, progress_subscriptions.
  cbn [fst snd call_callback]. rewrite call_callback_emitter. simpl.
  by rewrite <- app_assoc.
Qed.

(** Each method is the common opening followed by its own executor and
    completion callback, and these send the method's request and nothing
    else, and leave the session flag and the listeners alone. *)
Lemma sftp_method_body JSON_parse (m : SftpMethod) (callback : option CallbackFunction) :
  ∃ (A : Type) (body : World → Completion A * World),
    (∀ connect_answer w,
       call_sftp JSON_parse m callback connect_answer w
       = (settlement (after_checkSFTP callback connect_answer body w).1,
          (after_checkSFTP callback connect_answer body w).2)) ∧
    ∀ v, ∃ rest,
      effects (body v).2 = effects v ++ rest ∧
      native_calls rest = [request_of m (this_key v)] ∧
      emitter (body v).2 = emitter v ∧
      _listeners (client (body v).2) = _listeners (client v) ∧
      sftpActive (body v).2 = sftpActive v.
Proof.
  destruct m as [p [e raw]|o n e|p e|p e|p e|p perm e|l r e|l r f e|b r f e|r l [e resp]];
    destruct callback as [cb|];
    (eexists _, _; split; [reflexivity|]); intros v;
    unfold sftpLs_done, sftpLs_settle, sftpLs_start, sftpRename_done, sftpMkdir_done,
      sftpRm_done, sftpRmdir_done, sftpChmod_done, file_operation_done,
      sftpRename_start, sftpMkdir_start, sftpRm_start, sftpRmdir_start,
      sftpChmod_start, sftpUpload_done, sftpUploadWithCustomName_done,
      sftpUploadBase64_done, upload_done, sftpUpload_start,
      sftpUploadWithCustomName_start, sftpUploadBase64_start,
      sftpDownload_done, sftpDownload_start, sftpActive;
    cbn [fst snd];
    try (destruct raw as [raw|]; [destruct (decode_entries JSON_parse raw)|]);
    destruct e; simpl;
    (eexists; split; [rewrite <- ?app_assoc; reflexivity|done]).
Qed.

(** X15.  Every SFTP method, directory listing, rename, make and remove
    directory, remove file, change mode, the three uploads and download,
    opens the same way.  With the session flagged open, the method's
    request is the only request sent.  With the session closed, a connect
    is sent first, and its completion callback flags the session open and
    subscribes to download progress and then to upload progress, whatever
    the answer; when the connect succeeded the method's request follows,
    and when it failed no request follows: the user callback is called
    once, with the connect's error, the promise is rejected with it, and
    the counters are untouched. *)
Theorem sftp_methods_connect_first
    (JSON_parse : jsstring → option LsResult) (m : SftpMethod)
    (callback : option CallbackFunction) (w : World) :
  (sftpActive w = true → ∀ connect_answer,
     let r := call_sftp JSON_parse m callback connect_answer w in
     native_calls (new_effects w r.2) = [request_of m (this_key w)] ∧
     emitter r.2 = emitter w ∧
     sftpActive r.2 = true) ∧
  (sftpActive w = false →
   (let r := call_sftp JSON_parse m callback None w in
    native_calls (new_effects w r.2)
    = [N_connectSFTP (this_key w); request_of m (this_key w)] ∧
    sftpActive r.2 = true ∧
    emitter r.2 = emitter w ++ progress_subscriptions w ∧
    _listeners (client r.2) !! NATIVE_EVENT_DOWNLOAD_PROGRESS
    = Some (mkSub (next_sub w) (listenerInterface w) NATIVE_EVENT_DOWNLOAD_PROGRESS) ∧
    _listeners (client r.2) !! NATIVE_EVENT_UPLOAD_PROGRESS
    = Some (mkSub (S (next_sub w)) (listenerInterface w) NATIVE_EVENT_UPLOAD_PROGRESS)) ∧
   ∀ e, let r := call_sftp JSON_parse m callback (Some e) w in
        r.1 = RejectedWith e ∧
        new_effects w r.2
        = Native (N_connectSFTP (this_key w))
          :: match callback with
             | Some f => [UserCallback f (Some e) RUndefined]
             | None => []
             end ∧
        _counters (client r.2) = _counters (client w) ∧
        sftpActive r.2 = true ∧
        emitter r.2 = emitter w ++ progress_subscriptions w).
Proof.
  destruct (sftp_method_body JSON_parse m callback) as (A & body & Hcall & Hbody).
  split.
  - intros Hs answer. cbv zeta. rewrite Hcall. cbn [fst snd].
    rewrite after_checkSFTP_open by done.
    destruct (Hbody w) as (rest & He & Hn & Hm & _ & Hf).
    split; [by rewrite (new_effects_app _ _ _ He)|]. split; [done|].
    by rewrite Hf.
  - intros Hs. split.
    + cbv zeta. rewrite Hcall. cbn [fst snd].
      rewrite after_checkSFTP_connected by done.
      destruct (implicitly_connected_spec None w Hs) as (S1 & S2 & _ & S4 & _).
      destruct (implicitly_connected_listeners None w Hs) as (L1 & L2).
      destruct (Hbody (implicitly_connected None w)) as (rest & He & Hn & Hm & Hl & Hf).
      rewrite S4, <- app_assoc in He.
      rewrite (new_effects_app _ _ _ He), Hf, Hm, Hl, L1, L2.
      split.
      { change ([Native (N_connectSFTP (this_key w))] ++ rest)
          with (Native (N_connectSFTP (this_key w)) :: rest).
        by rewrite native_calls_native, Hn, S2. }
      split; [done|]. split; [done|]. split.
      * rewrite lookup_insert_ne by discriminate. apply lookup_insert_eq.
      * apply lookup_insert_eq.
    + intros e. cbv zeta. rewrite Hcall. cbn [fst snd].
      destruct (sftp_connect_failure callback e body w Hs) as (F1 & F2 & F3 & F4 & _).
      rewrite F1. split; [done|]. split; [done|]. split; [done|]. split; [done|].
      by apply sftp_connect_failure_listeners.
Qed.

Lemma sftp_methods_connect_first_witness :
  let w := fresh_world "android" "1a2b" "example.org" 22 "root" in
  let r := call_sftp parse_nonempty (M_sftpChmod "/tmp/a" 420 None) (Some 3)
             (Some "channel refused") w in
  sftpActive w = false ∧
  r.1 = RejectedWith "channel refused" ∧
  effects r.2 = [Native (N_connectSFTP "1a2b");
                 UserCallback 3 (Some "channel refused") RUndefined] ∧
  native_calls (effects (call_sftp parse_nonempty (M_sftpChmod "/tmp/a" 420 None)
                           (Some 3) None w).2)
  = [N_connectSFTP "1a2b"; N_sftpChmod "/tmp/a" 420 "1a2b"].
Proof.
  destruct (sftp_methods_connect_first parse_nonempty (M_sftpChmod "/tmp/a" 420 None)
              (Some 3) (fresh_world "android" "1a2b" "example.org" 22 "root"))
    as [_ H].
  destruct (H eq_refl) as [(Hok & _) Hfail].
  destruct (Hfail "channel refused") as (H1 & H2 & _).
  split; [reflexivity|]. split; [exact H1|]. split; [exact H2|]. exact Hok.
Defined.

(** An upload itself: the executor and its completion callback. *)
Lemma sftpUpload_body l r callback (answer : option Error) w :
  let done := sftpUpload_done callback answer (sftpUpload_start l r w) in
  effects done.2
  = effects w
    ++ Native (N_sftpUpload l r (this_key w))
       :: match callback with
          | Some f => [UserCallback f answer RUndefined]
          | None => []
          end ∧
  _counters (client done.2) = _counters (client w) ∧
  done.1 = match answer with Some e => Reject e | None => Resolve () end.
Proof.
  intros done. subst done.
  unfold sftpUpload_done, upload_done, sftpUpload_start, uploadCount.
  destruct answer; simpl; rewrite call_callback_client, call_callback_effects; simpl.
  all: split; [by rewrite <- app_assoc|]. all: split; [|done].
  all: destruct (_counters (client w)) as [d u]; simpl; f_equal; lia.
Qed.

(** X16.  After an upload has failed because its implicit connect
    failed, the client takes the session for open: the next upload sends
    its request with no connect before it. *)
Theorem upload_after_failed_connect_skips_connect
    (l1 r1 l2 r2 : string) (cb1 cb2 : option CallbackFunction)
    (e : Error) (u1 connect2 u2 : option Error) (w : World) :
  sftpActive w = false →
  let first := sftpUpload l1 r1 cb1 (Some e) u1 w in
  let second := sftpUpload l2 r2 cb2 connect2 u2 first.2 in
  first.1 = Reject e ∧
  native_calls (new_effects w first.2) = [N_connectSFTP (this_key w)] ∧
  native_calls (new_effects first.2 second.2) = [N_sftpUpload l2 r2 (this_key w)] ∧
  second.1 = match u2 with Some e2 => Reject e2 | None => Resolve () end.
Proof.
  intros Hs first second.
  destruct (sftp_connect_failure cb1 e
              (λ w, sftpUpload_done cb1 u1 (sftpUpload_start l1 r1 w)) w Hs)
    as (F1 & F2 & F3 & F4 & F5).
  fold (sftpUpload l1 r1 cb1 (Some e) u1 w) in F1, F2, F3, F4, F5.
  fold first in F1, F2, F3, F4, F5.
  split; [exact F1|]. split.
  { rewrite F2. simpl. by rewrite native_calls_callback. }
  assert (E2 : second = sftpUpload_done cb2 u2 (sftpUpload_start l2 r2 first.2)).
  { subst second. unfold sftpUpload at 1. unfold after_checkSFTP, checkSFTP.
    by rewrite F4. }
  destruct (sftpUpload_body l2 r2 cb2 u2 first.2) as (B1 & _ & B3).
  rewrite E2. split; [|exact B3].
  rewrite (new_effects_app _ _ _ B1), native_calls_native, F5.
  by rewrite native_calls_callback.
Qed.

Lemma upload_after_failed_connect_skips_connect_witness :
  let w := fresh_world "android" "1a2b" "example.org" 22 "root" in
  let first := sftpUpload "a.txt" "/tmp" None (Some "channel refused") None w in
  let second := sftpUpload "b.txt" "/tmp" None None None first.2 in
  sftpActive w = false ∧
  native_calls (new_effects first.2 second.2) = [N_sftpUpload "b.txt" "/tmp" "1a2b"].
Proof.
  split; [reflexivity|].
  destruct (upload_after_failed_connect_skips_connect "a.txt" "/tmp" "b.txt" "/tmp"
              None None "channel refused" None None None
              (fresh_world "android" "1a2b" "example.org" 22 "root") eq_refl)
    as (_ & _ & H & _).
  exact H.
Defined.

(** ** Whole transfers *)

Lemma after_checkSFTP_counters {A : Type} callback answer
    (body : World → Completion A * World) w :
  (∀ v, _counters (client (body v).2) = _counters (client v)) →
  _counters (client (after_checkSFTP callback answer body w).2) = _counters (client w).
Proof.
  intros Hb. unfold after_checkSFTP, checkSFTP, connectSFTP.
  destruct (sftpActive w); [apply Hb|].
  unfold connectSFTP_done, checkSFTP_catch.
  destruct answer; cbn [fst snd call_callback].
  - by rewrite call_callback_client.
  - by rewrite Hb.
Qed.

Lemma upload_done_keeps_after_start callback answer w n :
  _counters (client (upload_done callback answer
                       (native n (set_upload (uploadCount w + 1) w))).2)
  = _counters (client w).
Proof.
  unfold upload_done, uploadCount.
  destruct answer; simpl; rewrite call_callback_client; simpl.
  all: destruct (_counters (client w)) as [d u]; simpl; f_equal; lia.
Qed.

(** X17.  A transfer run from call to settlement leaves both counters
    where it found them, whatever the native module answered: whether the
    implicit connect failed, the transfer failed, or all went well. *)
Theorem settled_transfer_restores_counters
    (a b c : string) (callback : option CallbackFunction)
    (connect_answer transfer_answer : option Error) (response : string)
    (w : World) :
  _counters (client (sftpUpload a b callback connect_answer transfer_answer w).2)
  = _counters (client w) ∧
  _counters (client (sftpUploadWithCustomName a b c callback connect_answer
                       transfer_answer w).2)
  = _counters (client w) ∧
  _counters (client (sftpUploadBase64 a b c callback connect_answer transfer_answer w).2)
  = _counters (client w) ∧
  _counters (client (sftpDownload a b callback connect_answer
                       (transfer_answer, response) w).2)
  = _counters (client w).
Proof.
  split; [|split; [|split]]; apply after_checkSFTP_counters; intros v.
  - apply upload_done_keeps_after_start.
  - apply upload_done_keeps_after_start.
  - apply upload_done_keeps_after_start.
  - unfold sftpDownload_done, sftpDownload_start, downloadCount.
    destruct transfer_answer; simpl; rewrite call_callback_client; simpl.
    all: destruct (_counters (client v)) as [d u]; simpl; f_equal; lia.
Qed.

(** X18.  A cancel is forwarded exactly while a transfer of its
    direction is in flight: in every state a fresh client reaches by
    transfer requests, completions, cancels and other methods,
    [sftpCancelUpload] sends the native cancel if some upload's completion
    callback is still outstanding and is the identity if none is, and
    likewise [sftpCancelDownload]. *)
Theorem cancel_forwarded_while_in_flight
    (os key host : string) (port : Z) (username : string) (t : Transfers) :
  reachable (fresh_world os key host port username) t →
  sftpCancelUpload (world t)
  = (if decide (uploads_in_flight t = 0) then world t
     else native (N_sftpCancelUpload (this_key (world t))) (world t)) ∧
  sftpCancelDownload (world t)
  = (if decide (downloads_in_flight t = 0) then world t
     else native (N_sftpCancelDownload (this_key (world t))) (world t)).
Proof.
  intros Hr.
  apply reachable_counts in Hr as [Hu Hd]; [|done..].
  unfold sftpCancelUpload, sftpCancelDownload. rewrite Hu, Hd.
  split; case_decide as H0.
  - rewrite H0. done.
  - destruct (Z.ltb_spec 0 (Z.of_nat (uploads_in_flight t))); [done|lia].
  - rewrite H0. done.
  - destruct (Z.ltb_spec 0 (Z.of_nat (downloads_in_flight t))); [done|lia].
Qed.

(** Two uploads requested, one completed. *)
Lemma cancel_forwarded_while_in_flight_witness :
  let w := fresh_world "android" "1a2b" "example.org" 22 "root" in
  let w := sftpUpload_start "a.txt" "/tmp" w in
  let w := sftpUpload_start "b.txt" "/tmp" w in
  let w := (upload_done None None w).2 in
  sftpCancelUpload w = native (N_sftpCancelUpload "1a2b") w ∧
  sftpCancelDownload w = w.
Proof.
  assert (Hr : reachable (fresh_world "android" "1a2b" "example.org" 22 "root")
                 (mkTransfers
                    (upload_done None None
                       (sftpUpload_start "b.txt" "/tmp"
                          (sftpUpload_start "a.txt" "/tmp"
                             (fresh_world "android" "1a2b" "example.org" 22 "root")))).2
                    1 0)).
  { unfold reachable.
    eapply rtc_l; [apply (step_upload "a.txt" "/tmp")|].
    eapply rtc_l; [apply (step_upload "b.txt" "/tmp")|].
    eapply rtc_l; [apply (step_upload_done None None)|].
    apply rtc_refl. }
  exact (cancel_forwarded_while_in_flight _ _ _ _ _ _ Hr).
Defined.

(** ** Stripping control characters *)

(** X19.  Stripping is stable and local: stripping twice is stripping
    once, a string without control characters is returned as it is,
    stripping a concatenation is concatenating the stripped parts, and the
    result is never longer than the input. *)
Theorem strip_control_is_stable (p q : jsstring) :
  strip_control (strip_control p) = strip_control p ∧
  (Forall (λ c, (31 < c)%N) p → strip_control p = p) ∧
  strip_control (p ++ q) = strip_control p ++ strip_control q ∧
  length (strip_control p) ≤ length p.
Proof.
  split; [|split; [|split]].
  - apply strip_control_clean, strip_control_no_control.
  - apply strip_control_clean.
  - unfold strip_control. apply List.filter_app.
  - unfold strip_control. apply List.filter_length_le.
Qed.

(** ** Connecting *)

(** X21.  The factories reach the native entry point of the platform
    with what they were given.  On Android a password goes to the password
    entry point and a private key, wrapped with its passphrase and no
    public key, to the key entry point; on every other platform both go to
    the one entry point there is.  The call carries the new client's host,
    port, user name and key, and the new client starts with both channels
    closed, no transfer counted and nothing registered. *)
Theorem factories_reach_the_platform_entry_point
    (os : string) (floored : N) (h : string) (p : Z) (u secret : string)
    (phrase : option string) :
  let k := getRandomClientKey floored in
  let pair := mkKeyPair secret None phrase in
  (connectWithPassword os floored h p u secret).2
  = (if decide (os = "android")
     then N_connectToHostByPassword h p u secret k
     else N_connectToHost h p u (Password secret) k) ∧
  (connectWithKey os floored h p u secret phrase).2
  = (if decide (os = "android")
     then N_connectToHostByKey h p u pair k
     else N_connectToHost h p u (Key pair) k) ∧
  (connectWithPassword os floored h p u secret).1 = fresh_world os k h p u ∧
  (connectWithKey os floored h p u secret phrase).1 = fresh_world os k h p u ∧
  (shellActive (fresh_world os k h p u), sftpActive (fresh_world os k h p u),
   uploadCount (fresh_world os k h p u), downloadCount (fresh_world os k h p u))
  = (false, false, 0%Z, 0%Z) ∧
  emitter (fresh_world os k h p u) = [] ∧
  _listeners (client (fresh_world os k h p u)) = ∅ ∧
  _handlers (client (fresh_world os k h p u)) = ∅.
Proof.
  intros k pair. unfold connectWithPassword, connectWithKey, constructor, connect.
  simpl. case_decide as Hos.
  - subst os. done.
  - apply String.eqb_neq in Hos. by rewrite Hos.
Qed.
